(** * pconpy: inter-residue distance matrices

    A shallow embedding of the distance engine of [pconpy/pconpy.py]:
    the atom classifier, the coordinate lookup with its virtual CB
    reconstruction, the centre-of-mass and minimum van-der-Waals metrics,
    the metric dispatcher [calc_distance], the matrix builder
    [make_dist_matrix] and the [sccmass] branch of the command-line driver.

    Numbers.  The program computes on IEEE-754 floats through numpy.  The
    model keeps the special values that the program can create (a division
    by zero gives an infinity or a NaN, and these propagate) and idealises
    the finite values as exact real numbers: a finite result is never
    rounded and never overflows.  A finite value in a statement below is
    the exact value of the source expression, which the program's float
    approximates.  Where the last digit matters (the two subtractions of
    line 249), the expression is also evaluated on binary64 doubles, in
    the module [Binary64].

    Exceptions.  A Python exception is a value of [pyerr]; code that may
    raise returns a [result]. *)

From Stdlib Require Import Reals Lra Lia String Ascii Bool Arith List Sorted.
From Stdlib Require PrimFloat.
Import ListNotations.

Local Open Scope R_scope.

(** ** Python exceptions *)

Inductive pyerr : Type :=
| KeyError
| IndexError
| AssertionError
| ValueError
| NotImplementedError.

Inductive result (A : Type) : Type :=
| Ok (a : A)
| Raise (e : pyerr).

Arguments Ok {A} a.
Arguments Raise {A} e.

Definition bind {A B : Type} (m : result A) (k : A -> result B) : result B :=
  match m with
  | Ok a => k a
  | Raise e => Raise e
  end.

Notation "x <- m ;; k" := (bind m (fun x => k))
  (at level 61, m at next level, right associativity).

(** ** Doubles: exact reals with the IEEE special values

    [Finite r] stands for a finite float of value [r].  The operations
    follow IEEE-754 on the special values and are exact on finite ones:
    rounding, overflow and underflow of finite results are outside the
    model. *)

Inductive float64 : Type :=
| Finite (r : R)
| PosInf
| NegInf
| NaN.

Definition fopp (x : float64) : float64 :=
  match x with
  | Finite r => Finite (- r)
  | PosInf => NegInf
  | NegInf => PosInf
  | NaN => NaN
  end.

Definition fadd (x y : float64) : float64 :=
  match x, y with
  | Finite a, Finite b => Finite (a + b)
  | NaN, _ | _, NaN => NaN
  | PosInf, NegInf | NegInf, PosInf => NaN
  | PosInf, _ | _, PosInf => PosInf
  | NegInf, _ | _, NegInf => NegInf
  end.

Definition fsub (x y : float64) : float64 := fadd x (fopp y).

(** The infinity with the sign of [r]; [0 * inf] is NaN. *)
Definition inf_signed (r : R) : float64 :=
  if Req_dec_T r 0 then NaN
  else if Rlt_dec 0 r then PosInf else NegInf.

Definition fmul (x y : float64) : float64 :=
  match x, y with
  | Finite a, Finite b => Finite (a * b)
  | NaN, _ | _, NaN => NaN
  | PosInf, Finite r | Finite r, PosInf => inf_signed r
  | NegInf, Finite r | Finite r, NegInf => inf_signed (- r)
  | PosInf, PosInf | NegInf, NegInf => PosInf
  | PosInf, NegInf | NegInf, PosInf => NegInf
  end.

(** numpy's scalar division: a zero divisor gives NaN for [0/0] and an
    infinity otherwise (with a warning, not an exception). *)
Definition fdiv (x y : float64) : float64 :=
  match x, y with
  | Finite a, Finite b =>
      if Req_dec_T b 0 then inf_signed a else Finite (a / b)
  | NaN, _ | _, NaN => NaN
  | Finite _, _ => Finite 0
  | PosInf, Finite r =>
      if Rlt_dec r 0 then NegInf else PosInf
  | NegInf, Finite r =>
      if Rlt_dec r 0 then PosInf else NegInf
  | _, _ => NaN
  end.

Definition fsqrt (x : float64) : float64 :=
  match x with
  | Finite r => if Rlt_dec r 0 then NaN else Finite (sqrt r)
  | PosInf => PosInf
  | NegInf | NaN => NaN
  end.

Definition fcos (x : float64) : float64 :=
  match x with
  | Finite r => Finite (cos r)
  | _ => NaN
  end.

Definition fsin (x : float64) : float64 :=
  match x with
  | Finite r => Finite (sin r)
  | _ => NaN
  end.

(** [x < y] on doubles; every comparison with NaN is false. *)
Definition flt (x y : float64) : bool :=
  match x, y with
  | Finite a, Finite b => if Rlt_dec a b then true else false
  | NaN, _ | _, NaN => false
  | NegInf, NegInf | PosInf, _ => false
  | NegInf, _ | Finite _, PosInf => true
  | Finite _, NegInf => false
  end.

(** [x >= 0] holds: the value is a non-negative number (or plus infinity). *)
Definition f_nonneg (x : float64) : Prop :=
  match x with
  | Finite r => 0 <= r
  | PosInf => True
  | NegInf | NaN => False
  end.

(** [x < 0] holds. *)
Definition f_negative (x : float64) : Prop :=
  match x with
  | Finite r => r < 0
  | NegInf => True
  | PosInf | NaN => False
  end.

(** ** Vectors and 3x3 matrices (numpy arrays of shape (3,) and (3,3)) *)

Definition vec3 : Type := (float64 * float64 * float64)%type.
Definition mat33 : Type := (vec3 * vec3 * vec3)%type.

Definition vadd (a b : vec3) : vec3 :=
  let '(a0, a1, a2) := a in
  let '(b0, b1, b2) := b in
  (fadd a0 b0, fadd a1 b1, fadd a2 b2).

Definition vsub (a b : vec3) : vec3 :=
  let '(a0, a1, a2) := a in
  let '(b0, b1, b2) := b in
  (fsub a0 b0, fsub a1 b1, fsub a2 b2).

(** [numpy.dot] of two vectors. *)
Definition vdot (a b : vec3) : float64 :=
  let '(a0, a1, a2) := a in
  let '(b0, b1, b2) := b in
  fadd (fadd (fmul a0 b0) (fmul a1 b1)) (fmul a2 b2).

(** [numpy.linalg.norm] of a vector: [sqrt(dot(x, x))]. *)
Definition norm (v : vec3) : float64 := fsqrt (vdot v v).

(** [numpy.linalg.norm] of a 0-d array: the same formula on one entry. *)
Definition norm_scalar (x : float64) : float64 := fsqrt (fmul x x).

(** [numpy.dot(m, v)]. *)
Definition mat_vec (m : mat33) (v : vec3) : vec3 :=
  let '(r0, r1, r2) := m in
  (vdot r0 v, vdot r1 v, vdot r2 v).

(** [Bio.PDB.Vector.normalize]: divide every entry by the norm. *)
Definition normalized (v : vec3) : vec3 :=
  let n := norm v in
  let '(x, y, z) := v in
  (fdiv x n, fdiv y n, fdiv z n).

(** [Bio.PDB.rotaxis(theta, vector)]: the matrix that, multiplied on the
    left, rotates by [theta] radians about [vector] (right-hand rule). *)
Definition rotaxis (theta : float64) (vector : vec3) : mat33 :=
  let '(x, y, z) := normalized vector in
  let c := fcos theta in
  let s := fsin theta in
  let t := fsub (Finite 1) c in
  ((fadd (fmul (fmul t x) x) c,
    fsub (fmul (fmul t x) y) (fmul s z),
    fadd (fmul (fmul t x) z) (fmul s y)),
   (fadd (fmul (fmul t x) y) (fmul s z),
    fadd (fmul (fmul t y) y) c,
    fsub (fmul (fmul t y) z) (fmul s x)),
   (fsub (fmul (fmul t x) z) (fmul s y),
    fadd (fmul (fmul t y) z) (fmul s x),
    fadd (fmul (fmul t z) z) c)).

(** [Vector.left_multiply(matrix)]. *)
Definition left_multiply (v : vec3) (m : mat33) : vec3 := mat_vec m v.

(** ** Atoms and residues (the part of Bio.PDB the program uses)

    An atom has a name ([get_id]), a coordinate read from the structure
    file and a mass.  A residue holds its atoms in file order and finds
    them by name.  Coordinates and masses are finite numbers here: a
    non-finite coordinate, and the NaN that Bio.PDB gives as mass to an
    atom whose element it does not know, are outside the model. *)

Record Atom : Type := mkAtom {
  get_id : string;
  atom_coord : R * R * R;
  atom_mass : R
}.

Definition get_coord (a : Atom) : vec3 :=
  let '(x, y, z) := atom_coord a in (Finite x, Finite y, Finite z).

(** [Atom.get_vector] carries the same three numbers as [get_coord]. *)
Definition get_vector (a : Atom) : vec3 := get_coord a.

Definition mass (a : Atom) : float64 := Finite (atom_mass a).

Definition Residue : Type := list Atom.

Definition get_iterator (res : Residue) : list Atom := res.
Definition get_list (res : Residue) : list Atom := res.

(** The child of [res] named [name], as [dict.get] would find it. *)
Definition find_atom (res : Residue) (name : string) : option Atom :=
  find (fun a => String.eqb (get_id a) name) res.

(** [name in res]. *)
Definition has_id (res : Residue) (name : string) : bool :=
  match find_atom res name with
  | Some _ => true
  | None => false
  end.

(** [res[name]]: raises [KeyError] when no atom has that name. *)
Definition getitem (res : Residue) (name : string) : result Atom :=
  match find_atom res name with
  | Some a => Ok a
  | None => Raise KeyError
  end.

(** [assert cond]. *)
Definition py_assert (cond : bool) : result unit :=
  if cond then Ok tt else Raise AssertionError.

(** [s[0]] on a Python string: a one-character string. *)
Definition str_first (s : string) : result string :=
  match s with
  | EmptyString => Raise IndexError
  | String c _ => Ok (String c EmptyString)
  end.

(** [l[i]] on a Python list, for a non-negative index. *)
Definition list_index {A : Type} (l : list A) (i : nat) : result A :=
  match nth_error l i with
  | Some x => Ok x
  | None => Raise IndexError
  end.

(** [name in names] for a collection of strings. *)
Definition str_in (name : string) (names : list string) : bool :=
  existsb (String.eqb name) names.

(** [d.get(key, default)] on a dict with string keys. *)
Fixpoint dict_get {V : Type} (d : list (string * V)) (key : string)
    (default : V) : V :=
  match d with
  | [] => default
  | (k, v) :: rest => if String.eqb k key then v else dict_get rest key default
  end.

(** A value that is either [None] or a float. *)
Inductive pyval : Type :=
| PyNone
| PyFloat (x : float64).

Definition is_None (v : pyval) : bool :=
  match v with
  | PyNone => true
  | PyFloat _ => false
  end.

(** Storing a value in a float64 array: numpy turns [None] into NaN. *)
Definition to_double (v : pyval) : float64 :=
  match v with
  | PyNone => NaN
  | PyFloat x => x
  end.

(** ** pconpy.py: constants and the atom classifier *)

Definition BACKBONE_ATOMS : list string :=
  ["CA"; "C"; "O"; "N"]%string.

Definition BACKBONE_FULL_ATOMS : list string :=
  ["CA"; "C"; "O"; "N"; "H"; "H1"; "H2"; "H3"; "OXT"]%string.

(** The plain dict of line 81 (it replaces the defaultdict of line 64). *)
Definition VDW_RADII : list (string * R) :=
  [("N"%string, 155 / 100); ("C"%string, 170 / 100); ("H"%string, 120 / 100);
   ("O"%string, 152 / 100); ("S"%string, 185 / 100)].

Definition is_backbone (atom : Atom) : bool :=
  str_in (get_id atom) BACKBONE_ATOMS.

Definition is_sidechain (atom : Atom) : bool :=
  negb (str_in (get_id atom) BACKBONE_FULL_ATOMS).

Definition get_backbone_atoms (res : Residue) : list Atom :=
  filter (fun atom => is_backbone atom) (get_iterator res).

Definition get_sidechain_atoms (res : Residue) : list Atom :=
  filter (fun atom => is_sidechain atom) (get_iterator res).

(** ** get_atom_coord

    [verbose] only writes a warning to stderr and is left out. *)

Definition virtual_angle : float64 := Finite (PI * 120 / 180).

Definition get_atom_coord (res : Residue) (atom_name : string) : result vec3 :=
  match getitem res atom_name with
  | Ok a => Ok (get_coord a)
  | Raise KeyError =>
      if negb (String.eqb atom_name "CB") then Raise NotImplementedError
      else
        _ <- py_assert (has_id res "N") ;;
        _ <- py_assert (has_id res "CA") ;;
        _ <- py_assert (has_id res "C") ;;
        n <- getitem res "N" ;;
        ca <- getitem res "CA" ;;
        c <- getitem res "C" ;;
        let N := get_vector n in
        let CA := get_vector ca in
        let C := get_vector c in
        let CA_N := vsub N CA in
        let CA_C := vsub C CA in
        let rot_mat := rotaxis virtual_angle CA_C in
        Ok (vadd CA (left_multiply N rot_mat))
  | Raise e => Raise e
  end.

(** ** calc_center_of_mass

    [numpy.array(rows).sum()] has no axis: it adds up every entry of every
    row, so the numerator is one number. *)

Definition scale (m : float64) (v : vec3) : list float64 :=
  let '(x, y, z) := v in [fmul m x; fmul m y; fmul m z].

(** The sum of a sequence of floats, from zero. *)
Definition fsum (l : list float64) : float64 :=
  fold_left fadd l (Finite 0).

Definition calc_center_of_mass (atoms : list Atom) : float64 :=
  fdiv (fsum (flat_map (fun x => scale (mass x) (get_coord x)) atoms))
       (fsum (map mass atoms)).

(** ** calc_minvdw_distance

    [minvdw_pair] is the body of the two loops.  The two subtractions of
    line 249 are made in the order of the source, on the exact values of
    the model; [Binary64.dist] below makes them on doubles. *)

Definition minvdw_pair (a b : Atom) (min_dist : pyval) : result pyval :=
  ka <- str_first (get_id a) ;;
  let radii_a := dict_get VDW_RADII ka 0 in
  kb <- str_first (get_id b) ;;
  let radii_b := dict_get VDW_RADII kb 0 in
  let A := get_coord a in
  let B := get_coord b in
  let dist := fsub (fsub (norm (vsub A B)) (Finite radii_a)) (Finite radii_b) in
  Ok (match min_dist with
      | PyNone => PyFloat dist
      | PyFloat m => if flt dist m then PyFloat dist else min_dist
      end).

(** The inner loop, [for b in res_b.get_iterator()]. *)
Fixpoint minvdw_inner (a : Atom) (bs : list Atom) (min_dist : pyval)
    : result pyval :=
  match bs with
  | [] => Ok min_dist
  | b :: rest =>
      m <- minvdw_pair a b min_dist ;;
      minvdw_inner a rest m
  end.

(** The outer loop, [for a in res_a.get_iterator()]. *)
Fixpoint minvdw_outer (atoms_a : list Atom) (res_b : Residue)
    (min_dist : pyval) : result pyval :=
  match atoms_a with
  | [] => Ok min_dist
  | a :: rest =>
      m <- minvdw_inner a (get_iterator res_b) min_dist ;;
      minvdw_outer rest res_b m
  end.

Definition calc_minvdw_distance (res_a res_b : Residue) : result pyval :=
  minvdw_outer (get_iterator res_a) res_b PyNone.

(** [a.get_id()[0]] on an atom that has a name. *)
Definition element_key (a : Atom) : string :=
  match get_id a with
  | EmptyString => EmptyString
  | String c _ => String c EmptyString
  end.

(** The value [dist] of line 249 for the pair of named atoms [(a, b)]. *)
Definition pair_dist (a b : Atom) : float64 :=
  let radii_a := dict_get VDW_RADII (element_key a) 0 in
  let radii_b := dict_get VDW_RADII (element_key b) 0 in
  let A := get_coord a in
  let B := get_coord b in
  fsub (fsub (norm (vsub A B)) (Finite radii_a)) (Finite radii_b).

(** ** calc_cmass_distance *)

Definition calc_cmass_distance (res_a res_b : Residue) (sidechain_only : bool)
    : pyval :=
  let atoms_a :=
    if sidechain_only then get_sidechain_atoms res_a else get_list res_a in
  let atoms_b :=
    if sidechain_only then get_sidechain_atoms res_b else get_list res_b in
  let A := calc_center_of_mass atoms_a in
  let B := calc_center_of_mass atoms_b in
  PyFloat (norm_scalar (fsub A B)).

(** ** calc_distance

    The [sccmass] branch is commented out in the source, so that selector
    reaches the final [else]. *)

Definition calc_distance (res_a res_b : Residue) (metric : string)
    : result pyval :=
  if str_in metric ["CA"; "CB"]%string then
    A <- get_atom_coord res_a metric ;;
    B <- get_atom_coord res_b metric ;;
    Ok (PyFloat (norm (vsub A B)))
  else if String.eqb metric "cmass" then
    Ok (calc_cmass_distance res_a res_b false)
  else if String.eqb metric "minvdw" then
    calc_minvdw_distance res_a res_b
  else Raise NotImplementedError.

(** ** Matrices (numpy arrays of shape (n, n), dtype float64) *)

Definition matrix : Type := list (list float64).

(** [numpy.zeros((rows, cols))]. *)
Definition zeros (rows cols : nat) : matrix :=
  repeat (repeat (Finite 0) cols) rows.

(** [l] with position [i] replaced by [x] (unchanged when out of range). *)
Fixpoint list_update {A : Type} (l : list A) (i : nat) (x : A) : list A :=
  match l, i with
  | [], _ => []
  | _ :: t, O => x :: t
  | h :: t, S i' => h :: list_update t i' x
  end.

(** [mat[i, j]], for non-negative indices. *)
Definition mat_get (mat : matrix) (i j : nat) : result float64 :=
  row <- list_index mat i ;;
  list_index row j.

(** [mat[i, j] = x]: numpy raises [IndexError] out of range. *)
Definition mat_set (mat : matrix) (i j : nat) (x : float64) : result matrix :=
  row <- list_index mat i ;;
  _ <- list_index row j ;;
  Ok (list_update mat i (list_update row j x)).

(** [numpy.maximum] on two doubles: NaN wins. *)
Definition fmax (x y : float64) : float64 :=
  match x, y with
  | NaN, _ | _, NaN => NaN
  | _, _ => if flt x y then y else x
  end.

(** [mat.max()]: the largest entry; [ValueError] on an empty array. *)
Definition mat_max (mat : matrix) : result float64 :=
  match concat mat with
  | [] => Raise ValueError
  | x :: rest => Ok (fold_left fmax rest x)
  end.

(** [xrange(n)]. *)
Definition xrange (n : nat) : list nat := seq 0 n.

(** [itertools.combinations(l, 2)]: every pair of positions [p < q] of [l],
    in lexicographic order of the positions. *)
Fixpoint combinations2 {A : Type} (l : list A) : list (A * A) :=
  match l with
  | [] => []
  | x :: rest => map (fun y => (x, y)) rest ++ combinations2 rest
  end.

(** [enumerate(l)]. *)
Definition enumerate {A : Type} (l : list A) : list (nat * A) :=
  combine (seq 0 (length l)) l.

(** ** make_dist_matrix *)

(** The body of the loop over the index pairs. *)
Fixpoint fill_pairs (residues : list Residue) (metric : string)
    (pairs : list (nat * nat)) (mat : matrix) : result matrix :=
  match pairs with
  | [] => Ok mat
  | (i, j) :: rest =>
      res_a <- list_index residues i ;;
      res_b <- list_index residues j ;;
      d <- calc_distance res_a res_b metric ;;
      mat' <- mat_set mat i j (to_double d) ;;
      fill_pairs residues metric rest mat'
  end.

Definition make_dist_matrix (residues : list Residue) (metric : string)
    : result matrix :=
  let mat := zeros (length residues) (length residues) in
  fill_pairs residues metric (combinations2 (xrange (length residues))) mat.

(** ** The [sccmass] branch of the command-line driver (lines 384-395)

    The state of the two loops is the matrix and the list
    [empty_indices]. *)

Definition sccmass_cell (i : nat) (res_a : Residue) (j : nat) (res_b : Residue)
    (st : matrix * list (nat * nat)) : result (matrix * list (nat * nat)) :=
  let '(mat, empty_indices) := st in
  let dist := calc_cmass_distance res_a res_b true in
  if is_None dist then Ok (mat, empty_indices ++ [(i, j)])
  else
    mat' <- mat_set mat i j (to_double dist) ;;
    Ok (mat', empty_indices).

Fixpoint sccmass_row (i : nat) (res_a : Residue) (cols : list (nat * Residue))
    (st : matrix * list (nat * nat)) : result (matrix * list (nat * nat)) :=
  match cols with
  | [] => Ok st
  | (j, res_b) :: rest =>
      st' <- sccmass_cell i res_a j res_b st ;;
      sccmass_row i res_a rest st'
  end.

Fixpoint sccmass_rows (rows : list (nat * Residue)) (residues : list Residue)
    (st : matrix * list (nat * nat)) : result (matrix * list (nat * nat)) :=
  match rows with
  | [] => Ok st
  | (i, res_a) :: rest =>
      st' <- sccmass_row i res_a (enumerate residues) st ;;
      sccmass_rows rest residues st'
  end.

(** [for i, j in empty_indices: mat[i,j] = mat.max()]. *)
Fixpoint sccmass_fill (empty_indices : list (nat * nat)) (mat : matrix)
    : result matrix :=
  match empty_indices with
  | [] => Ok mat
  | (i, j) :: rest =>
      m <- mat_max mat ;;
      mat' <- mat_set mat i j m ;;
      sccmass_fill rest mat'
  end.

(** The matrix of the [sccmass] branch, with the deferred list it built. *)
Definition main_sccmass (residues : list Residue)
    : result (matrix * list (nat * nat)) :=
  let mat := zeros (length residues) (length residues) in
  st <- sccmass_rows (enumerate residues) residues (mat, []) ;;
  let '(mat1, empty_indices) := st in
  mat2 <- sccmass_fill empty_indices mat1 ;;
  Ok (mat2, empty_indices).

(** ** The [minvdw] and [cmass] branches of the driver (lines 376-383)

    Both run the same two nested loops over [enumerate(residues)] and
    store a value in every cell, diagonal and lower triangle included;
    [dist] is the metric function the branch calls. *)

Fixpoint full_row (dist : Residue -> Residue -> result pyval) (i : nat)
    (res_a : Residue) (cols : list (nat * Residue)) (mat : matrix)
    : result matrix :=
  match cols with
  | [] => Ok mat
  | (j, res_b) :: rest =>
      d <- dist res_a res_b ;;
      mat' <- mat_set mat i j (to_double d) ;;
      full_row dist i res_a rest mat'
  end.

Fixpoint full_rows (dist : Residue -> Residue -> result pyval)
    (rows : list (nat * Residue)) (residues : list Residue) (mat : matrix)
    : result matrix :=
  match rows with
  | [] => Ok mat
  | (i, res_a) :: rest =>
      mat' <- full_row dist i res_a (enumerate residues) mat ;;
      full_rows dist rest residues mat'
  end.

Definition main_minvdw (residues : list Residue) : result matrix :=
  let mat := zeros (length residues) (length residues) in
  full_rows calc_minvdw_distance (enumerate residues) residues mat.

Definition main_cmass (residues : list Residue) : result matrix :=
  let mat := zeros (length residues) (length residues) in
  full_rows (fun res_a res_b => Ok (calc_cmass_distance res_a res_b false))
    (enumerate residues) residues mat.

(** ** The contact map (lines 399 and 437)

    [mat < thresh], entry by entry. *)

Definition mat_lt (mat : matrix) (thresh : float64) : list (list bool) :=
  map (map (fun x => flt x thresh)) mat.

(** [bools[i][j]], for non-negative indices. *)
Definition bools_get (bools : list (list bool)) (i j : nat) : result bool :=
  row <- list_index bools i ;;
  list_index row j.


(** ** Line 249 on binary64 doubles

    Rocq's primitive floats are binary64 doubles, rounded to nearest even
    as numpy's are.  [dist] is the expression of line 249 on them; its
    first argument is the value of [numpy.linalg.norm(A - B)]. *)

Module Binary64.
Import PrimFloat.
Local Open Scope float_scope.

(** A decimal literal denotes the nearest double, as in Python. *)
Local Set Warnings "-inexact-float".

(** The dict of line 81, its values being doubles. *)
Definition VDW_RADII : list (string * float) :=
  [("N"%string, 1.55); ("C"%string, 1.70); ("H"%string, 1.20);
   ("O"%string, 1.52); ("S"%string, 1.85)].

(** [VDW_RADII.get(a.get_id()[0], 0.0)]. *)
Definition radius (a : Atom) : result float :=
  k <- str_first (get_id a) ;;
  Ok (dict_get VDW_RADII k 0.0).

(** [dist = numpy.linalg.norm(A - B) - radii_a - radii_b]. *)
Definition dist (norm_AB : float) (a b : Atom) : result float :=
  radii_a <- radius a ;;
  radii_b <- radius b ;;
  Ok (norm_AB - radii_a - radii_b).


End Binary64.

(** ** The specification's formulas

    These follow the words of the specification, on real numbers; the
    theorems below compare them with the functions above. *)

Definition coord_dist (p q : R * R * R) : R :=
  let '(px, py, pz) := p in
  let '(qx, qy, qz) := q in
  sqrt ((px - qx) * (px - qx) + (py - qy) * (py - qy) + (pz - qz) * (pz - qz)).

(** The radius table of the specification, by element symbol (the first
    character of the atom name); unknown elements have radius 0. *)
Definition spec_vdw_radius (a : Atom) : R :=
  match get_id a with
  | String "N" _ => 155 / 100
  | String "C" _ => 170 / 100
  | String "H" _ => 120 / 100
  | String "O" _ => 152 / 100
  | String "S" _ => 185 / 100
  | _ => 0
  end.

Definition spec_vdw_gap (a b : Atom) : R :=
  coord_dist (atom_coord a) (atom_coord b) - spec_vdw_radius a - spec_vdw_radius b.

(** The sums of the centre of mass, on real numbers. *)
Definition Rsum (l : list R) : R := fold_right Rplus 0 l.

Definition total_mass (atoms : list Atom) : R := Rsum (map atom_mass atoms).

(** The mass-weighted centroid of the specification: the 3-vector
    sum(mass_i * coord_i) / sum(mass_i). *)
Definition spec_centroid (atoms : list Atom) : R * R * R :=
  let M := total_mass atoms in
  (Rsum (map (fun a => atom_mass a * fst (fst (atom_coord a))) atoms) / M,
   Rsum (map (fun a => atom_mass a * snd (fst (atom_coord a))) atoms) / M,
   Rsum (map (fun a => atom_mass a * snd (atom_coord a)) atoms) / M).

(** The centre-of-mass distance of the specification. *)
Definition spec_cmass_distance (atoms_a atoms_b : list Atom) : R :=
  coord_dist (spec_centroid atoms_a) (spec_centroid atoms_b).

(** A vector rotated by [theta] radians about [axis], by the rotation
    matrix of the unit vector along [axis]. *)
Definition spec_rotate (v axis : R * R * R) (theta : R) : R * R * R :=
  let '(vx, vy, vz) := v in
  let '(ax, ay, az) := axis in
  let n := sqrt (ax * ax + ay * ay + az * az) in
  let x := ax / n in
  let y := ay / n in
  let z := az / n in
  let c := cos theta in
  let s := sin theta in
  let t := 1 - c in
  ((t * x * x + c) * vx + (t * x * y - s * z) * vy + (t * x * z + s * y) * vz,
   (t * x * y + s * z) * vx + (t * y * y + c) * vy + (t * y * z - s * x) * vz,
   (t * x * z - s * y) * vx + (t * y * z + s * x) * vy + (t * z * z + c) * vz).

Definition Rvsub (p q : R * R * R) : R * R * R :=
  let '(px, py, pz) := p in
  let '(qx, qy, qz) := q in
  (px - qx, py - qy, pz - qz).

Definition Rvadd (p q : R * R * R) : R * R * R :=
  let '(px, py, pz) := p in
  let '(qx, qy, qz) := q in
  (px + qx, py + qy, pz + qz).

(** The virtual CB of the specification: CA->N rotated by -120 degrees
    about CA->C, added to CA. *)
Definition spec_virtual_CB (N CA C : R * R * R) : R * R * R :=
  Rvadd CA (spec_rotate (Rvsub N CA) (Rvsub C CA) (- (PI * 120 / 180))).

(** What [get_atom_coord] computes instead: the position of N rotated by
    +120 degrees about CA->C, added to CA. *)
Definition code_virtual_CB (N CA C : R * R * R) : R * R * R :=
  Rvadd CA (spec_rotate N (Rvsub C CA) (PI * 120 / 180)).

Definition finite3 (p : R * R * R) : vec3 :=
  let '(x, y, z) := p in (Finite x, Finite y, Finite z).

(** ** Residues used as examples *)

Definition incomplete_residue : Residue :=
  [mkAtom "N" (0, 0, 0) 14; mkAtom "C" (1, 1, 0) 12; mkAtom "O" (2, 1, 0) 16].

Definition carbon_a : Residue := [mkAtom "C" (0, 0, 0) 12].
Definition carbon_b : Residue := [mkAtom "C" (3, 4, 0) 12].

(** ** Shapes and orders used in the statements *)

(** [mat] is an [n] by [n] array. *)
Definition square (n : nat) (mat : matrix) : Prop :=
  length mat = n /\ Forall (fun row => length row = n) mat.

(** Lexicographic order on index pairs. *)
Definition pair_lt (p q : nat * nat) : Prop :=
  (fst p < fst q)%nat \/ (fst p = fst q /\ (snd p < snd q)%nat).


Definition ca_a : Residue := [mkAtom "CA" (0, 0, 0) 12].
Definition ca_b : Residue := [mkAtom "CA" (3, 4, 0) 12].

Definition glycine : Residue :=
  [mkAtom "N" (0, 0, 0) 14; mkAtom "CA" (1, 0, 0) 12;
   mkAtom "C" (1, 1, 0) 12; mkAtom "O" (2, 1, 0) 16].

Definition alanine : Residue :=
  [mkAtom "N" (3, 0, 0) 14; mkAtom "CA" (4, 0, 0) 12;
   mkAtom "C" (4, 1, 0) 12; mkAtom "O" (5, 1, 0) 16;
   mkAtom "CB" (4, 0, 1) 12].

Definition side_x : Residue := [mkAtom "CB" (1, 0, 0) 12].
Definition side_y : Residue := [mkAtom "CB" (0, 1, 0) 12].

(** A glycine with CA at (1,0,0), N at (2,0,0) and C at (1,0,1). *)
Definition glycine_z : Residue :=
  [mkAtom "N" (2, 0, 0) 14; mkAtom "CA" (1, 0, 0) 12;
   mkAtom "C" (1, 0, 1) 12; mkAtom "O" (1, 1, 1) 16].

(** ** Auxiliary definitions of the proofs *)

(** One comparison of the loop, on the running minimum. *)
Definition min_step (min_dist : pyval) (g : R) : pyval :=
  match min_dist with
  | PyNone => PyFloat (Finite g)
  | PyFloat m => if flt (Finite g) m then PyFloat (Finite g) else min_dist
  end.

(** The entries that [numpy.array(rows).sum()] adds up. *)
Definition moment_entries (atoms : list Atom) : list R :=
  flat_map (fun a => let '(x, y, z) := atom_coord a in
                     [atom_mass a * x; atom_mass a * y; atom_mass a * z]) atoms.

(** Equal triples of finite doubles, componentwise. *)
Ltac componentwise tac :=
  repeat match goal with
         | |- Ok _ = Ok _ => f_equal
         | |- (_, _) = (_, _) => f_equal
         | |- Finite _ = Finite _ => f_equal
         end;
  tac.


(** The atoms that [calc_cmass_distance] selects from a residue. *)
Definition selected (sidechain_only : bool) (res : Residue) : list Atom :=
  if sidechain_only then get_sidechain_atoms res else get_list res.

(** The values the minvdw loop compares, one per atom pair. *)
Definition vdw_gaps (res_a res_b : Residue) : list R :=
  flat_map (fun a => map (spec_vdw_gap a) res_b) res_a.

(** * Properties *)

(** ** The result monad *)

Lemma bind_Ok {A B : Type} (m : result A) (k : A -> result B) (b : B) :
  bind m k = Ok b -> exists a, m = Ok a /\ k a = Ok b.
Proof.
  destruct m as [a | e]; simpl; intros H; [eauto | discriminate].
Qed.

Lemma bind_Raise {A B : Type} (m : result A) (k : A -> result B) (e : pyerr) :
  bind m k = Raise e ->
  m = Raise e \/ exists a, m = Ok a /\ k a = Raise e.
Proof.
  destruct m as [a | e']; simpl; intros H; [right; eauto | left; congruence].
Qed.

(** ** Atom classification *)

Lemma backbone_in_full (name : string) :
  str_in name BACKBONE_ATOMS = true -> str_in name BACKBONE_FULL_ATOMS = true.
Proof.
  unfold str_in, BACKBONE_ATOMS, BACKBONE_FULL_ATOMS.
  cbn [existsb].
  intros H.
  repeat (apply orb_true_iff in H; destruct H as [H | H]);
    rewrite ?H, ?orb_true_r; try reflexivity; discriminate.
Qed.

(** C10: no atom is both backbone and side chain, and the atoms named H,
    H1, H2, H3 and OXT are neither. *)
Theorem backbone_sidechain_exclusive (atom : Atom) :
  is_backbone atom && is_sidechain atom = false /\
  (In (get_id atom) ["H"; "H1"; "H2"; "H3"; "OXT"]%string ->
   is_backbone atom = false /\ is_sidechain atom = false).
Proof.
  split.
  - unfold is_backbone, is_sidechain.
    destruct (str_in (get_id atom) BACKBONE_ATOMS) eqn:Hb; [|reflexivity].
    rewrite (backbone_in_full _ Hb). reflexivity.
  - unfold is_backbone, is_sidechain.
    intros [H | [H | [H | [H | [H | []]]]]]; rewrite <- H; split; reflexivity.
Qed.

Lemma backbone_sidechain_exclusive_witness :
  In "OXT"%string ["H"; "H1"; "H2"; "H3"; "OXT"]%string /\
  is_backbone (mkAtom "OXT" (0, 0, 0) 16) = false /\
  is_sidechain (mkAtom "OXT" (0, 0, 0) 16) = false.
Proof.
  split.
  - simpl; tauto.
  - apply (backbone_sidechain_exclusive (mkAtom "OXT" (0, 0, 0) 16)).
    simpl; tauto.
Defined.

(** ** get_atom_coord: present atoms and failures *)

Lemma getitem_find (res : Residue) (name : string) (a : Atom) :
  find_atom res name = Some a -> getitem res name = Ok a.
Proof. unfold getitem; intros ->; reflexivity. Qed.

Lemma getitem_not_unsupported (res : Residue) (name : string) :
  getitem res name <> Raise NotImplementedError.
Proof. unfold getitem; destruct (find_atom res name); discriminate. Qed.

Lemma get_atom_coord_present (res : Residue) (name : string) (a : Atom) :
  find_atom res name = Some a -> get_atom_coord res name = Ok (get_coord a).
Proof.
  intros H. unfold get_atom_coord. rewrite (getitem_find _ _ _ H). reflexivity.
Qed.

Lemma get_atom_coord_absent_other (res : Residue) (name : string) :
  find_atom res name = None -> name <> "CB"%string ->
  get_atom_coord res name = Raise NotImplementedError.
Proof.
  intros H Hn. unfold get_atom_coord, getitem. rewrite H.
  apply String.eqb_neq in Hn. rewrite Hn. reflexivity.
Qed.

(** The reconstruction path: CB is absent, N, CA and C are present. *)
Lemma get_atom_coord_virtual (res : Residue) (n ca c : Atom) :
  find_atom res "CB" = None ->
  find_atom res "N" = Some n ->
  find_atom res "CA" = Some ca ->
  find_atom res "C" = Some c ->
  get_atom_coord res "CB" =
  Ok (vadd (get_vector ca)
        (left_multiply (get_vector n)
           (rotaxis virtual_angle (vsub (get_vector c) (get_vector ca))))).
Proof.
  intros Hcb Hn Hca Hc.
  unfold get_atom_coord, getitem, has_id.
  rewrite Hcb, Hn, Hca, Hc. reflexivity.
Qed.

Lemma get_atom_coord_CB_not_unsupported (res : Residue) :
  get_atom_coord res "CB" <> Raise NotImplementedError.
Proof.
  unfold get_atom_coord, getitem, has_id, py_assert.
  destruct (find_atom res "CB"); [discriminate|].
  cbn [String.eqb Ascii.eqb Bool.eqb negb].
  destruct (find_atom res "N"); [|discriminate].
  destruct (find_atom res "CA"); [|discriminate].
  destruct (find_atom res "C"); discriminate.
Qed.

(** C8, as stated, fails: a missing CA is also an unsupported atom. *)
Lemma get_atom_coord_missing_CA :
  ~ (get_atom_coord incomplete_residue "CA" = Raise NotImplementedError <->
     (find_atom incomplete_residue "CA" = None /\
      "CA"%string <> "CA"%string /\ "CA"%string <> "CB"%string)).
Proof.
  intros [H _].
  assert (E : get_atom_coord incomplete_residue "CA" = Raise NotImplementedError)
    by reflexivity.
  destruct (H E) as (_ & Hne & _). apply Hne; reflexivity.
Qed.

(** C8 (amended): the lookup raises NotImplementedError exactly when the
    named atom is absent and the name is not "CB"; a present atom's
    coordinate is returned. *)
Theorem get_atom_coord_unsupported_iff (res : Residue) (name : string) :
  (get_atom_coord res name = Raise NotImplementedError <->
   find_atom res name = None /\ name <> "CB"%string) /\
  (forall a, find_atom res name = Some a ->
             get_atom_coord res name = Ok (get_coord a)).
Proof.
  split; [split|].
  - intros H. destruct (find_atom res name) as [a|] eqn:Hf.
    + rewrite (get_atom_coord_present _ _ _ Hf) in H. discriminate.
    + split; [reflexivity|]. intros ->.
      exact (get_atom_coord_CB_not_unsupported res H).
  - intros [Hf Hn]. exact (get_atom_coord_absent_other _ _ Hf Hn).
  - intros a Hf. exact (get_atom_coord_present _ _ _ Hf).
Qed.

Lemma get_atom_coord_unsupported_iff_witness :
  get_atom_coord incomplete_residue "N" = Ok (Finite 0, Finite 0, Finite 0).
Proof.
  apply (proj2 (get_atom_coord_unsupported_iff incomplete_residue "N")
           (mkAtom "N" (0, 0, 0) 14)).
  reflexivity.
Defined.

(** ** Arithmetic on finite doubles *)

Lemma sum_squares_nonneg (x y z : R) : 0 <= x * x + y * y + z * z.
Proof. nra. Qed.

Lemma fsqrt_finite (r : R) : 0 <= r -> fsqrt (Finite r) = Finite (sqrt r).
Proof.
  intros H. unfold fsqrt. destruct (Rlt_dec r 0) as [Hlt | _]; [lra | reflexivity].
Qed.

Lemma flt_finite_true (a b : R) : a < b -> flt (Finite a) (Finite b) = true.
Proof. intros H. unfold flt. destruct (Rlt_dec a b); [reflexivity | contradiction]. Qed.

Lemma flt_finite_false (a b : R) : b <= a -> flt (Finite a) (Finite b) = false.
Proof. intros H. unfold flt. destruct (Rlt_dec a b); [lra | reflexivity]. Qed.

(** The norm of the difference of two file coordinates is their distance. *)
Lemma norm_vsub_coord (a b : Atom) :
  norm (vsub (get_coord a) (get_coord b)) =
  Finite (coord_dist (atom_coord a) (atom_coord b)).
Proof.
  unfold get_coord, coord_dist.
  destruct (atom_coord a) as [[ax ay] az], (atom_coord b) as [[bx by_] bz].
  unfold norm, vsub, vdot, fsub, fadd, fmul, fopp.
  rewrite fsqrt_finite by apply sum_squares_nonneg.
  reflexivity.
Qed.

Lemma coord_dist_nonneg (p q : R * R * R) : 0 <= coord_dist p q.
Proof.
  destruct p as [[px py] pz], q as [[qx qy] qz]. apply sqrt_pos.
Qed.

(** ** calc_minvdw_distance *)

Lemma vdw_lookup_spec (a : Atom) (k : string) :
  str_first (get_id a) = Ok k -> dict_get VDW_RADII k 0 = spec_vdw_radius a.
Proof.
  unfold str_first, spec_vdw_radius.
  destruct (get_id a) as [|c rest]; [discriminate|].
  intros H; injection H as <-.
  unfold VDW_RADII, dict_get.
  destruct c as [[] [] [] [] [] [] [] []]; reflexivity.
Qed.

Lemma minvdw_pair_named (a b : Atom) (min_dist : pyval) :
  get_id a <> EmptyString -> get_id b <> EmptyString ->
  minvdw_pair a b min_dist = Ok (min_step min_dist (spec_vdw_gap a b)).
Proof.
  intros Ha Hb. unfold minvdw_pair.
  destruct (str_first (get_id a)) as [ka | e] eqn:Ea.
  2:{ unfold str_first in Ea. destruct (get_id a); [contradiction | discriminate]. }
  destruct (str_first (get_id b)) as [kb | e] eqn:Eb.
  2:{ unfold str_first in Eb. destruct (get_id b); [contradiction | discriminate]. }
  cbn [bind].
  rewrite (vdw_lookup_spec a ka Ea), (vdw_lookup_spec b kb Eb).
  rewrite norm_vsub_coord.
  unfold min_step, spec_vdw_gap, fsub, fadd, fopp.
  reflexivity.
Qed.

Lemma minvdw_inner_named (a : Atom) (bs : list Atom) (min_dist : pyval) :
  get_id a <> EmptyString ->
  (forall b, In b bs -> get_id b <> EmptyString) ->
  minvdw_inner a bs min_dist =
  Ok (fold_left min_step (map (spec_vdw_gap a) bs) min_dist).
Proof.
  intros Ha. revert min_dist.
  induction bs as [|b rest IH]; intros min_dist Hb; [reflexivity|].
  cbn [minvdw_inner map fold_left].
  rewrite minvdw_pair_named by (try assumption; apply Hb; left; reflexivity).
  cbn [bind]. apply IH. intros b' Hin. apply Hb. right; exact Hin.
Qed.

Lemma minvdw_outer_named (atoms_a : list Atom) (res_b : Residue)
    (min_dist : pyval) :
  (forall a, In a atoms_a -> get_id a <> EmptyString) ->
  (forall b, In b res_b -> get_id b <> EmptyString) ->
  minvdw_outer atoms_a res_b min_dist =
  Ok (fold_left min_step
        (flat_map (fun a => map (spec_vdw_gap a) res_b) atoms_a) min_dist).
Proof.
  intros Ha Hb. revert min_dist Ha.
  induction atoms_a as [|a rest IH]; intros min_dist Ha; [reflexivity|].
  cbn [minvdw_outer flat_map]. unfold get_iterator.
  rewrite minvdw_inner_named by (try assumption; apply Ha; left; reflexivity).
  cbn [bind]. rewrite fold_left_app. apply IH.
  intros a' Hin. apply Ha. right; exact Hin.
Qed.

Lemma min_step_fold_finite (l : list R) (m0 : R) :
  exists m, fold_left min_step l (PyFloat (Finite m0)) = PyFloat (Finite m) /\
            (m = m0 \/ In m l) /\ m <= m0 /\ (forall g, In g l -> m <= g).
Proof.
  revert m0. induction l as [|g rest IH]; intros m0.
  - exists m0. cbn. repeat split; [left; reflexivity | lra | intros g []].
  - cbn [fold_left min_step].
    destruct (Rlt_dec g m0) as [Hlt | Hge].
    + rewrite flt_finite_true by exact Hlt.
      destruct (IH g) as (m & E & Hin & Hle & Hall).
      exists m. split; [exact E|]. split; [|split].
      * right. destruct Hin as [-> | Hin]; [left; reflexivity | right; exact Hin].
      * lra.
      * intros g' [<- | Hg']; [exact Hle | apply Hall; exact Hg'].
    + rewrite flt_finite_false by lra.
      destruct (IH m0) as (m & E & Hin & Hle & Hall).
      exists m. split; [exact E|]. split; [|split].
      * destruct Hin as [-> | Hin]; [left; reflexivity | right; right; exact Hin].
      * exact Hle.
      * intros g' [<- | Hg']; [lra | apply Hall; exact Hg'].
Qed.

Lemma min_step_fold_none (l : list R) :
  l <> [] ->
  exists m, fold_left min_step l PyNone = PyFloat (Finite m) /\
            In m l /\ (forall g, In g l -> m <= g).
Proof.
  destruct l as [|g rest]; [congruence | intros _].
  cbn [fold_left min_step].
  destruct (min_step_fold_finite rest g) as (m & E & Hin & Hle & Hall).
  exists m. split; [exact E|]. split.
  - destruct Hin as [-> | Hin]; [left; reflexivity | right; exact Hin].
  - intros g' [<- | Hg']; [exact Hle | apply Hall; exact Hg'].
Qed.

Lemma coord_dist_3_4 : coord_dist (0, 0, 0) (3, 4, 0) = 5.
Proof.
  unfold coord_dist.
  replace ((0 - 3) * (0 - 3) + (0 - 4) * (0 - 4) + (0 - 0) * (0 - 0))
    with (5 * 5) by lra.
  apply sqrt_square; lra.
Qed.







(** ** calc_distance: the dispatch *)

Lemma str_in_pair (metric a b : string) :
  str_in metric [a; b] = true <-> metric = a \/ metric = b.
Proof.
  unfold str_in. cbn [existsb]. rewrite orb_false_r, orb_true_iff.
  rewrite !String.eqb_eq. tauto.
Qed.

Lemma cmass_always_returns (res_a res_b : Residue) :
  exists d, calc_distance res_a res_b "cmass" = Ok (PyFloat d).
Proof. eexists. reflexivity. Qed.

(** C6, as stated, fails: the sccmass selector is rejected. *)
Lemma calc_distance_sccmass_rejected :
  ~ (exists d, calc_distance carbon_a carbon_b "sccmass" = Ok d).
Proof. intros [d H]. discriminate H. Qed.

(** C6 (amended): the dispatcher raises NotImplementedError for every
    selector other than CA, CB, cmass and minvdw, sccmass included; cmass
    always returns a value; minvdw returns whenever every atom name is
    non-empty; CA and CB return the norm of the difference of the two
    coordinates when both lookups succeed and pass the lookup's error on
    otherwise. *)
Theorem calc_distance_dispatch (res_a res_b : Residue) (metric : string) :
  (~ In metric ["CA"; "CB"; "cmass"; "minvdw"]%string ->
   calc_distance res_a res_b metric = Raise NotImplementedError) /\
  calc_distance res_a res_b "sccmass" = Raise NotImplementedError /\
  (exists d, calc_distance res_a res_b "cmass" = Ok (PyFloat d)) /\
  ((forall a, In a res_a -> get_id a <> EmptyString) ->
   (forall b, In b res_b -> get_id b <> EmptyString) ->
   exists v, calc_distance res_a res_b "minvdw" = Ok v) /\
  (In metric ["CA"; "CB"]%string ->
   (forall A B, get_atom_coord res_a metric = Ok A ->
                get_atom_coord res_b metric = Ok B ->
                calc_distance res_a res_b metric = Ok (PyFloat (norm (vsub A B)))) /\
   (forall e, get_atom_coord res_a metric = Raise e ->
              calc_distance res_a res_b metric = Raise e) /\
   (forall A e, get_atom_coord res_a metric = Ok A ->
                get_atom_coord res_b metric = Raise e ->
                calc_distance res_a res_b metric = Raise e)).
Proof.
  split; [|split; [|split; [|split]]].
  - intros Hn. unfold calc_distance.
    destruct (str_in metric ["CA"; "CB"]%string) eqn:E1.
    { apply str_in_pair in E1. exfalso. apply Hn.
      destruct E1 as [-> | ->]; cbn; tauto. }
    destruct (String.eqb metric "cmass") eqn:E2.
    { apply String.eqb_eq in E2. exfalso. apply Hn. subst; cbn; tauto. }
    destruct (String.eqb metric "minvdw") eqn:E3.
    { apply String.eqb_eq in E3. exfalso. apply Hn. subst; cbn; tauto. }
    reflexivity.
  - reflexivity.
  - eexists. reflexivity.
  - intros Hna Hnb. unfold calc_distance.
    cbn [str_in existsb String.eqb Ascii.eqb Bool.eqb orb].
    unfold calc_minvdw_distance, get_iterator.
    rewrite minvdw_outer_named by assumption. eexists. reflexivity.
  - intros Hm.
    assert (E : str_in metric ["CA"; "CB"]%string = true).
    { apply str_in_pair. cbn in Hm. destruct Hm as [<- | [<- | []]]; tauto. }
    unfold calc_distance. rewrite E.
    split; [|split].
    + intros A B -> ->. reflexivity.
    + intros e ->. reflexivity.
    + intros A e -> ->. reflexivity.
Qed.

Lemma calc_distance_dispatch_witness :
  exists v, calc_distance carbon_a carbon_b "minvdw" = Ok v.
Proof.
  apply (proj1 (proj2 (proj2 (proj2
           (calc_distance_dispatch carbon_a carbon_b "minvdw"))))).
  - intros a [<- | []]; discriminate.
  - intros b [<- | []]; discriminate.
Defined.

(** ** Lists and matrices *)

Local Open Scope nat_scope.

Lemma list_index_Ok {A : Type} (l : list A) (i : nat) (x : A) :
  list_index l i = Ok x <-> nth_error l i = Some x.
Proof.
  unfold list_index. destruct (nth_error l i); split; congruence.
Qed.

Lemma list_index_lt {A : Type} (l : list A) (i : nat) :
  i < length l -> exists x, list_index l i = Ok x.
Proof.
  intros H. unfold list_index.
  destruct (nth_error l i) eqn:E; [eauto|].
  apply nth_error_None in E. lia.
Qed.

Lemma length_list_update {A : Type} (l : list A) (i : nat) (x : A) :
  length (list_update l i x) = length l.
Proof.
  revert i. induction l as [|h t IH]; intros [|i]; cbn; auto.
Qed.

Lemma nth_error_list_update_eq {A : Type} (l : list A) (i : nat) (x : A) :
  i < length l -> nth_error (list_update l i x) i = Some x.
Proof.
  revert i. induction l as [|h t IH]; intros [|i] H; cbn in *; try lia; auto.
  apply IH. lia.
Qed.

Lemma nth_error_list_update_ne {A : Type} (l : list A) (i k : nat) (x : A) :
  i <> k -> nth_error (list_update l i x) k = nth_error l k.
Proof.
  revert i k. induction l as [|h t IH]; intros [|i] [|k] H; cbn; auto; try lia.
Qed.

Lemma Forall_list_update {A : Type} (P : A -> Prop) (l : list A) (i : nat)
    (x : A) :
  Forall P l -> P x -> Forall P (list_update l i x).
Proof.
  intros Hl Hx. revert i.
  induction Hl as [|h t Hh Ht IH]; intros [|i]; cbn; auto.
Qed.

Lemma square_zeros (n : nat) : square n (zeros n n).
Proof.
  unfold square, zeros. split; [apply repeat_length|].
  apply Forall_forall. intros row Hrow.
  apply repeat_spec in Hrow. subst. apply repeat_length.
Qed.

Lemma nth_error_repeat_lt {A : Type} (x : A) (n i : nat) :
  i < n -> nth_error (repeat x n) i = Some x.
Proof.
  revert i. induction n as [|n IH]; intros [|i] H; cbn; try lia; auto.
  apply IH. lia.
Qed.

Lemma mat_get_zeros (n i j : nat) :
  i < n -> j < n -> mat_get (zeros n n) i j = Ok (Finite 0%R).
Proof.
  intros Hi Hj. unfold mat_get, zeros, list_index.
  rewrite nth_error_repeat_lt by exact Hi. cbn [bind].
  rewrite nth_error_repeat_lt by exact Hj. reflexivity.
Qed.

Lemma square_row (n : nat) (mat : matrix) (i : nat) (row : list float64) :
  square n mat -> nth_error mat i = Some row -> length row = n.
Proof.
  intros [_ Hrows] Hi.
  rewrite Forall_forall in Hrows. apply Hrows.
  eapply nth_error_In. exact Hi.
Qed.

(** A store inside the array succeeds and changes that cell only. *)
Lemma mat_set_inside (n : nat) (mat : matrix) (i j : nat) (x : float64) :
  square n mat -> i < n -> j < n ->
  exists mat',
    mat_set mat i j x = Ok mat' /\ square n mat' /\
    mat_get mat' i j = Ok x /\
    (forall i' j', (i', j') <> (i, j) -> mat_get mat' i' j' = mat_get mat i' j').
Proof.
  intros Hsq Hi Hj.
  assert (Hlen : length mat = n) by apply Hsq.
  destruct (nth_error mat i) as [row|] eqn:Erow.
  2:{ apply nth_error_None in Erow. lia. }
  assert (Hrow : length row = n) by (eapply square_row; eauto).
  destruct (nth_error row j) as [old|] eqn:Eold.
  2:{ apply nth_error_None in Eold. lia. }
  exists (list_update mat i (list_update row j x)).
  split; [|split; [|split]].
  - unfold mat_set, list_index. rewrite Erow. cbn [bind]. rewrite Eold.
    reflexivity.
  - split; [rewrite length_list_update; exact Hlen|].
    apply Forall_list_update; [apply Hsq|].
    rewrite length_list_update. exact Hrow.
  - unfold mat_get, list_index.
    rewrite nth_error_list_update_eq by lia. cbn [bind].
    rewrite nth_error_list_update_eq by lia. reflexivity.
  - intros i' j' Hne. unfold mat_get, list_index.
    destruct (Nat.eq_dec i i') as [<- | Hii].
    + rewrite nth_error_list_update_eq by lia. rewrite Erow. cbn [bind].
      rewrite nth_error_list_update_ne; [reflexivity|].
      intros <-. apply Hne. reflexivity.
    + rewrite nth_error_list_update_ne by exact Hii. reflexivity.
Qed.

(** A store that succeeded was inside the array. *)
Lemma mat_set_Ok_inside (n : nat) (mat mat' : matrix) (i j : nat)
    (x : float64) :
  square n mat -> mat_set mat i j x = Ok mat' -> i < n /\ j < n.
Proof.
  intros Hsq H. unfold mat_set in H.
  apply bind_Ok in H. destruct H as (row & Erow & H).
  apply bind_Ok in H. destruct H as (old & Eold & _).
  apply list_index_Ok in Erow, Eold.
  assert (Hrow : length row = n) by (eapply square_row; eauto).
  assert (Hi : i < length mat) by (apply nth_error_Some; congruence).
  assert (Hj : j < length row) by (apply nth_error_Some; congruence).
  destruct Hsq as [Hlen _]. lia.
Qed.

(** ** The index pairs of the builder *)

Lemma in_combinations2_seq (a k i j : nat) :
  In (i, j) (combinations2 (seq a k)) <-> a <= i /\ i < j /\ j < a + k.
Proof.
  revert a. induction k as [|k IH]; intros a; cbn [seq combinations2].
  - cbn. lia.
  - rewrite in_app_iff, in_map_iff, IH. split.
    + intros [(y & E & Hy) | H].
      * injection E as <- <-. apply in_seq in Hy. lia.
      * lia.
    + intros (Ha & Hij & Hj).
      destruct (Nat.eq_dec a i) as [<- | Hne].
      * left. exists j. split; [reflexivity|]. apply in_seq. lia.
      * right. lia.
Qed.

Lemma sorted_combinations2_seq (a k : nat) :
  StronglySorted pair_lt (combinations2 (seq a k)).
Proof.
  revert a. induction k as [|k IH]; intros a; cbn [seq combinations2].
  - constructor.
  - assert (Hrow : forall b m, StronglySorted pair_lt
                     (map (fun y => (a, y)) (seq b m))).
    { intros b m. revert b. induction m as [|m IHm]; intros b; cbn.
      - constructor.
      - constructor; [apply IHm|].
        apply Forall_forall. intros [i j] Hin. apply in_map_iff in Hin.
        destruct Hin as (y & E & Hy). injection E as <- <-.
        apply in_seq in Hy. right. cbn. lia. }
    generalize (Hrow (S a) k).
    generalize (IH (S a)).
    assert (Hcross : forall p q,
               In p (map (fun y => (a, y)) (seq (S a) k)) ->
               In q (combinations2 (seq (S a) k)) -> pair_lt p q).
    { intros [i j] [i' j'] Hp Hq. apply in_map_iff in Hp.
      destruct Hp as (y & E & Hy). injection E as <- <-.
      apply in_combinations2_seq in Hq. left. cbn. lia. }
    revert Hcross.
    generalize (combinations2 (seq (S a) k)) as rest.
    generalize (map (fun y => (a, y)) (seq (S a) k)) as row.
    induction row as [|p row IHrow]; intros rest Hcross Hrest Hsrow; cbn.
    + exact Hrest.
    + inversion Hsrow as [|? ? Hs Hall]; subst.
      constructor.
      * apply IHrow; auto. intros; apply Hcross; cbn; auto.
      * apply Forall_app. split; [exact Hall|].
        apply Forall_forall. intros q Hq. apply Hcross; cbn; auto.
Qed.

Lemma pair_lt_irrefl (p : nat * nat) : ~ pair_lt p p.
Proof. unfold pair_lt. lia. Qed.

Lemma sorted_NoDup (l : list (nat * nat)) :
  StronglySorted pair_lt l -> NoDup l.
Proof.
  induction 1 as [|p l Hs IH Hall]; constructor; auto.
  intros Hin. rewrite Forall_forall in Hall.
  exact (pair_lt_irrefl p (Hall p Hin)).
Qed.

Lemma length_combinations2_twice {A : Type} (l : list A) :
  2 * length (combinations2 l) = length l * (length l - 1).
Proof.
  induction l as [|x t IH]; [reflexivity|].
  cbn [combinations2 length]. rewrite length_app, length_map. nia.
Qed.

Lemma length_combinations2 {A : Type} (l : list A) :
  length (combinations2 l) = length l * (length l - 1) / 2.
Proof.
  rewrite <- length_combinations2_twice.
  rewrite Nat.mul_comm, Nat.div_mul by discriminate. reflexivity.
Qed.

(** ** make_dist_matrix *)

(** What a finished loop has done. *)
Lemma fill_pairs_Ok (residues : list Residue) (metric : string) (n : nat)
    (pairs : list (nat * nat)) :
  NoDup pairs ->
  forall mat mat',
    square n mat ->
    fill_pairs residues metric pairs mat = Ok mat' ->
    square n mat' /\
    (forall i j, In (i, j) pairs ->
       exists res_a res_b v,
         nth_error residues i = Some res_a /\
         nth_error residues j = Some res_b /\
         calc_distance res_a res_b metric = Ok v /\
         mat_get mat' i j = Ok (to_double v)) /\
    (forall i j, ~ In (i, j) pairs -> mat_get mat' i j = mat_get mat i j).
Proof.
  induction 1 as [|[i j] rest Hnotin Hnd IH]; intros mat mat' Hsq H.
  - cbn in H. injection H as <-. split; [exact Hsq|]. split; [intros ? ? []|auto].
  - cbn [fill_pairs] in H.
    apply bind_Ok in H. destruct H as (res_a & Ea & H).
    apply bind_Ok in H. destruct H as (res_b & Eb & H).
    apply bind_Ok in H. destruct H as (v & Ev & H).
    apply bind_Ok in H. destruct H as (mat1 & Eset & H).
    apply list_index_Ok in Ea, Eb.
    destruct (mat_set_Ok_inside n _ _ _ _ _ Hsq Eset) as [Hi Hj].
    destruct (mat_set_inside n mat i j (to_double v) Hsq Hi Hj)
      as (mat1' & Eset' & Hsq1 & Hget & Hother).
    rewrite Eset in Eset'. injection Eset' as <-.
    destruct (IH mat1 mat' Hsq1 H) as (Hsq' & Hin & Hout).
    split; [exact Hsq'|]. split.
    + intros i' j' [E | Hrest].
      * injection E as <- <-. exists res_a, res_b, v.
        repeat split; auto. rewrite Hout by exact Hnotin. exact Hget.
      * apply Hin. exact Hrest.
    + intros i' j' Hn. rewrite Hout by (intros Hc; apply Hn; right; exact Hc).
      apply Hother. intros E. apply Hn. left. symmetry. exact E.
Qed.

(** The loop finishes when every pair is inside the array and has a
    distance. *)
Lemma fill_pairs_total (residues : list Residue) (metric : string) (n : nat)
    (pairs : list (nat * nat)) :
  (forall i j, In (i, j) pairs ->
     i < n /\ j < n /\
     exists res_a res_b v,
       nth_error residues i = Some res_a /\
       nth_error residues j = Some res_b /\
       calc_distance res_a res_b metric = Ok v) ->
  forall mat, square n mat ->
  exists mat', fill_pairs residues metric pairs mat = Ok mat'.
Proof.
  induction pairs as [|[i j] rest IH]; intros Hp mat Hsq.
  - eexists. reflexivity.
  - destruct (Hp i j (or_introl eq_refl))
      as (Hi & Hj & res_a & res_b & v & Ea & Eb & Ev).
    destruct (mat_set_inside n mat i j (to_double v) Hsq Hi Hj)
      as (mat1 & Eset & Hsq1 & _).
    cbn [fill_pairs]. unfold list_index. rewrite Ea, Eb. cbn [bind].
    rewrite Ev. cbn [bind]. rewrite Eset. cbn [bind].
    apply IH; [|exact Hsq1].
    intros i' j' Hin. apply Hp. right. exact Hin.
Qed.

(** The entries of a matrix that the builder returned. *)
Lemma make_dist_matrix_Ok (residues : list Residue) (metric : string)
    (mat : matrix) :
  make_dist_matrix residues metric = Ok mat ->
  square (length residues) mat /\
  (forall i j, i < j < length residues ->
     exists res_a res_b v,
       nth_error residues i = Some res_a /\
       nth_error residues j = Some res_b /\
       calc_distance res_a res_b metric = Ok v /\
       mat_get mat i j = Ok (to_double v)) /\
  (forall i j, j <= i < length residues -> mat_get mat i j = Ok (Finite 0%R)).
Proof.
  unfold make_dist_matrix, xrange. intros H.
  set (n := length residues) in *.
  destruct (fill_pairs_Ok residues metric n _
              (sorted_NoDup _ (sorted_combinations2_seq 0 n))
              _ _ (square_zeros n) H) as (Hsq & Hin & Hout).
  split; [exact Hsq|]. split.
  - intros i j Hij. apply Hin. apply in_combinations2_seq. lia.
  - intros i j Hij. rewrite Hout.
    + apply mat_get_zeros; lia.
    + rewrite in_combinations2_seq. lia.
Qed.

(** The builder returns when every pair above the diagonal has a distance. *)
Lemma make_dist_matrix_total (residues : list Residue) (metric : string) :
  (forall i j res_a res_b,
     i < j ->
     nth_error residues i = Some res_a ->
     nth_error residues j = Some res_b ->
     exists v, calc_distance res_a res_b metric = Ok v) ->
  exists mat, make_dist_matrix residues metric = Ok mat.
Proof.
  intros Hdist. unfold make_dist_matrix, xrange.
  apply (fill_pairs_total residues metric (length residues));
    [|apply square_zeros].
  intros i j Hin. apply in_combinations2_seq in Hin.
  destruct (nth_error residues i) as [res_a|] eqn:Ea.
  2:{ apply nth_error_None in Ea. lia. }
  destruct (nth_error residues j) as [res_b|] eqn:Eb.
  2:{ apply nth_error_None in Eb. lia. }
  destruct (Hdist i j res_a res_b) as [v Ev]; try assumption; [lia|].
  split; [lia|]. split; [lia|]. exists res_a, res_b, v. auto.
Qed.

Lemma make_dist_matrix_sccmass (residues : list Residue) :
  (2 <= length residues)%nat ->
  make_dist_matrix residues "sccmass" = Raise NotImplementedError.
Proof.
  destruct residues as [|r0 [|r1 rest]]; cbn [length]; try lia.
  intros _. reflexivity.
Qed.

(** C2, as stated, fails: under sccmass the builder returns no matrix. *)
Lemma make_dist_matrix_sccmass_raises :
  ~ (exists mat, make_dist_matrix [glycine; alanine] "sccmass" = Ok mat).
Proof.
  intros [mat H].
  rewrite make_dist_matrix_sccmass in H by (cbn; lia).
  discriminate H.
Qed.

(** C2 (amended): when every pair of residues has a distance under the
    selected metric, the builder returns an n-by-n matrix whose entry
    [i][j], i < j, is the distance of residues i and j, and whose diagonal
    and lower triangle are 0; the pairs it visits are the n(n-1)/2 pairs
    i < j in lexicographic order. *)
Theorem make_dist_matrix_upper_triangle (residues : list Residue)
    (metric : string)
    (Hdist : forall i j res_a res_b,
        i < j ->
        nth_error residues i = Some res_a ->
        nth_error residues j = Some res_b ->
        exists v, calc_distance res_a res_b metric = Ok v) :
  let n := length residues in
  let pairs := combinations2 (xrange n) in
  (length pairs = n * (n - 1) / 2 /\
   StronglySorted pair_lt pairs /\
   (forall i j, In (i, j) pairs <-> i < j < n)) /\
  exists mat,
    make_dist_matrix residues metric = Ok mat /\
    square n mat /\
    (forall i j res_a res_b,
        i < j ->
        nth_error residues i = Some res_a ->
        nth_error residues j = Some res_b ->
        exists v, calc_distance res_a res_b metric = Ok v /\
                  mat_get mat i j = Ok (to_double v)) /\
    (forall i, i < n -> mat_get mat i i = Ok (Finite 0%R)) /\
    (forall i j, j < i < n -> mat_get mat i j = Ok (Finite 0%R)).
Proof.
  intros n pairs. split.
  - unfold pairs, xrange. split; [|split].
    + rewrite length_combinations2, length_seq. reflexivity.
    + apply sorted_combinations2_seq.
    + intros i j. rewrite in_combinations2_seq. lia.
  - destruct (make_dist_matrix_total residues metric Hdist) as [mat E].
    destruct (make_dist_matrix_Ok residues metric mat E) as (Hsq & Hup & Hlow).
    exists mat. split; [exact E|]. split; [exact Hsq|]. split; [|split].
    + intros i j res_a res_b Hij Ea Eb.
      assert (Hj : j < length residues) by (apply nth_error_Some; congruence).
      destruct (Hup i j (conj Hij Hj)) as (ra & rb & v & Ea' & Eb' & Ev & Hget).
      rewrite Ea in Ea'. rewrite Eb in Eb'.
      injection Ea' as <-. injection Eb' as <-. eauto.
    + intros i Hi. apply Hlow. fold n. lia.
    + intros i j Hij. apply Hlow. fold n. lia.
Qed.

Local Open Scope R_scope.

Lemma calc_minvdw_distance_single (a b : Atom) :
  get_id a <> EmptyString -> get_id b <> EmptyString ->
  calc_minvdw_distance [a] [b] = Ok (PyFloat (Finite (spec_vdw_gap a b))).
Proof.
  intros Ha Hb. unfold calc_minvdw_distance, get_iterator.
  rewrite minvdw_outer_named; [reflexivity | |].
  - intros a' [<- | []]; exact Ha.
  - intros b' [<- | []]; exact Hb.
Qed.

Lemma carbon_a_b_distance :
  calc_distance carbon_a carbon_b "minvdw" = Ok (PyFloat (Finite (160 / 100))).
Proof.
  unfold calc_distance. cbn [str_in existsb String.eqb Ascii.eqb Bool.eqb orb].
  unfold carbon_a, carbon_b.
  rewrite calc_minvdw_distance_single by discriminate.
  unfold spec_vdw_gap, spec_vdw_radius. cbn [get_id atom_coord].
  rewrite coord_dist_3_4. do 3 f_equal. lra.
Qed.

Lemma make_dist_matrix_upper_triangle_witness :
  exists mat,
    make_dist_matrix [carbon_a; carbon_b] "minvdw" = Ok mat /\
    mat_get mat 0 1 = Ok (Finite (160 / 100)).
Proof.
  destruct (make_dist_matrix_upper_triangle [carbon_a; carbon_b] "minvdw")
    as (_ & mat & E & _ & Hup & _).
  - intros i j res_a res_b Hij Ea Eb.
    destruct i as [|[|i]], j as [|[|j]]; cbn in Ea, Eb; try lia;
      try discriminate; try (destruct i; discriminate);
      try (destruct j; discriminate).
    injection Ea as <-. injection Eb as <-.
    eexists. exact carbon_a_b_distance.
  - exists mat. split; [exact E|].
    destruct (Hup 0%nat 1%nat carbon_a carbon_b) as (v & Ev & Hget);
      [lia | reflexivity | reflexivity |].
    rewrite carbon_a_b_distance in Ev. injection Ev as <-. exact Hget.
Defined.

(** ** Special values *)

Lemma fsqrt_sign (x : float64) : fsqrt x = NaN \/ f_nonneg (fsqrt x).
Proof.
  destruct x as [r | | |]; cbn; auto.
  destruct (Rlt_dec r 0); [left; reflexivity | right; cbn; apply sqrt_pos].
Qed.

Lemma fsub_NaN_l (y : float64) : fsub NaN y = NaN.
Proof. destruct y; reflexivity. Qed.

Lemma fsub_NaN_r (x : float64) : fsub x NaN = NaN.
Proof. destruct x; reflexivity. Qed.

Lemma fdiv_zero_zero (a b : R) : a = 0 -> b = 0 -> fdiv (Finite a) (Finite b) = NaN.
Proof.
  intros -> ->. unfold fdiv, inf_signed.
  destruct (Req_dec_T 0 0) as [_ | H]; [reflexivity | contradiction H; reflexivity].
Qed.

Lemma fdiv_finite (a b : R) : b <> 0 -> fdiv (Finite a) (Finite b) = Finite (a / b).
Proof.
  intros Hb. unfold fdiv. destruct (Req_dec_T b 0); [contradiction | reflexivity].
Qed.

(** ** calc_center_of_mass and calc_cmass_distance *)

Lemma fold_left_fadd_finite (l : list R) (acc : R) :
  fold_left fadd (map Finite l) (Finite acc) = Finite (acc + Rsum l).
Proof.
  revert acc. induction l as [|x t IH]; intros acc; cbn.
  - f_equal. lra.
  - rewrite IH. f_equal. unfold Rsum. lra.
Qed.

Lemma fsum_finite (l : list R) : fsum (map Finite l) = Finite (Rsum l).
Proof.
  unfold fsum. rewrite fold_left_fadd_finite. f_equal. lra.
Qed.

Lemma scale_entries (atoms : list Atom) :
  flat_map (fun x => scale (mass x) (get_coord x)) atoms =
  map Finite (moment_entries atoms).
Proof.
  unfold moment_entries.
  induction atoms as [|a t IH]; [reflexivity|].
  cbn [flat_map]. rewrite map_app, IH. f_equal.
  unfold get_coord, mass. destruct (atom_coord a) as [[x y] z]. reflexivity.
Qed.

Lemma calc_center_of_mass_fdiv (atoms : list Atom) :
  calc_center_of_mass atoms =
  fdiv (Finite (Rsum (moment_entries atoms))) (Finite (total_mass atoms)).
Proof.
  unfold calc_center_of_mass, total_mass.
  rewrite scale_entries, fsum_finite.
  replace (map mass atoms) with (map Finite (map atom_mass atoms))
    by (rewrite map_map; reflexivity).
  rewrite fsum_finite. reflexivity.
Qed.

(** No atoms: the quotient is 0/0. *)
Lemma calc_center_of_mass_empty : calc_center_of_mass [] = NaN.
Proof.
  rewrite calc_center_of_mass_fdiv. apply fdiv_zero_zero; reflexivity.
Qed.

(** With a non-zero total mass the result is one number: the sum of all
    the mass-weighted coordinates over the total mass. *)
Lemma calc_center_of_mass_scalar (atoms : list Atom) :
  total_mass atoms <> 0 ->
  calc_center_of_mass atoms =
  Finite (Rsum (moment_entries atoms) / total_mass atoms).
Proof.
  intros H. rewrite calc_center_of_mass_fdiv. apply fdiv_finite. exact H.
Qed.

Lemma norm_scalar_finite (r : R) : norm_scalar (Finite r) = Finite (Rabs r).
Proof.
  unfold norm_scalar, fmul. rewrite fsqrt_finite by nra.
  f_equal. rewrite <- sqrt_Rsqr_abs. reflexivity.
Qed.

(** What the centre-of-mass metric computes on residues of non-zero mass. *)
Lemma calc_cmass_distance_scalar (res_a res_b : Residue) :
  total_mass res_a <> 0 -> total_mass res_b <> 0 ->
  calc_cmass_distance res_a res_b false =
  PyFloat (Finite (Rabs (Rsum (moment_entries res_a) / total_mass res_a -
                         Rsum (moment_entries res_b) / total_mass res_b))).
Proof.
  intros Ha Hb. unfold calc_cmass_distance, get_list.
  rewrite !calc_center_of_mass_scalar by assumption.
  unfold fsub, fopp, fadd. rewrite norm_scalar_finite. reflexivity.
Qed.

(** An empty selection on either side makes the distance NaN. *)
Lemma calc_cmass_distance_undefined (res_a res_b : Residue) :
  get_sidechain_atoms res_a = [] \/ get_sidechain_atoms res_b = [] ->
  calc_cmass_distance res_a res_b true = PyFloat NaN.
Proof.
  intros H. unfold calc_cmass_distance.
  destruct H as [-> | ->]; rewrite calc_center_of_mass_empty.
  - rewrite fsub_NaN_l. reflexivity.
  - rewrite fsub_NaN_r. reflexivity.
Qed.

(** C3 fails on the code: for two one-atom residues at (1,0,0) and
    (0,1,0) the metric returns 0, while the norm of the difference of the
    two mass-weighted centroids is sqrt 2. *)
Theorem calc_cmass_distance_sums_all_axes :
  calc_cmass_distance side_x side_y false = PyFloat (Finite 0) /\
  spec_cmass_distance side_x side_y = sqrt 2 /\
  sqrt 2 <> 0.
Proof.
  split; [|split].
  - rewrite calc_cmass_distance_scalar.
    + do 2 f_equal. unfold side_x, side_y, moment_entries, total_mass, Rsum.
      cbn [flat_map map fold_right atom_coord atom_mass app].
      replace ((12 * 1 + (12 * 0 + (12 * 0 + 0))) / (12 + 0) -
               (12 * 0 + (12 * 1 + (12 * 0 + 0))) / (12 + 0)) with 0 by (field; lra).
      apply Rabs_R0.
    + unfold total_mass, side_x, Rsum. cbn. lra.
    + unfold total_mass, side_y, Rsum. cbn. lra.
  - unfold spec_cmass_distance, spec_centroid, side_x, side_y, total_mass,
      Rsum, coord_dist.
    cbn [map fold_right atom_coord atom_mass fst snd].
    f_equal. field.
  - intros H. pose proof (sqrt_lt_R0 2). lra.
Qed.

(** C4 fails on the code: glycine has no side-chain atom, and the metric
    returns the value NaN (there is no exception and no None). *)
Theorem calc_cmass_distance_glycine_nan :
  get_sidechain_atoms glycine = [] /\
  calc_cmass_distance glycine alanine true = PyFloat NaN /\
  is_None (calc_cmass_distance glycine alanine true) = false.
Proof.
  assert (H : get_sidechain_atoms glycine = []) by reflexivity.
  split; [exact H|].
  rewrite (calc_cmass_distance_undefined glycine alanine (or_introl H)).
  split; reflexivity.
Qed.

(** ** Signs of the entries *)


Lemma not_negative (x : float64) : x = NaN \/ f_nonneg x -> ~ f_negative x.
Proof.
  intros [-> | H]; [exact (fun F => F)|].
  destruct x as [r | | |]; cbn in *; try tauto. lra.
Qed.


Lemma get_atom_coord_CA (res : Residue) (A : vec3) :
  get_atom_coord res "CA" = Ok A ->
  exists a, find_atom res "CA" = Some a /\ A = get_coord a.
Proof.
  intros H. destruct (find_atom res "CA") as [a|] eqn:Ef.
  - rewrite (get_atom_coord_present _ _ _ Ef) in H. injection H as <-. eauto.
  - rewrite get_atom_coord_absent_other in H by (auto; discriminate).
    discriminate.
Qed.





(** ** The sccmass branch of the driver *)

Local Open Scope nat_scope.

Lemma in_enumerate_from {A : Type} (l : list A) (a j : nat) (x : A) :
  In (j, x) (combine (seq a (length l)) l) <->
  a <= j /\ nth_error l (j - a) = Some x.
Proof.
  revert a. induction l as [|h t IH]; intros a; cbn [length seq combine].
  - cbn. split; [tauto|]. intros [_ H]. destruct (j - a); discriminate.
  - cbn [In]. rewrite IH. split.
    + intros [E | [Hle Hn]].
      * injection E as <- <-. rewrite Nat.sub_diag. split; [lia | reflexivity].
      * split; [lia|]. replace (j - a) with (S (j - S a)) by lia. exact Hn.
    + intros [Hle Hn]. destruct (Nat.eq_dec a j) as [<- | Hne].
      * left. rewrite Nat.sub_diag in Hn. cbn in Hn. congruence.
      * right. split; [lia|].
        replace (j - a) with (S (j - S a)) in Hn by lia. exact Hn.
Qed.

Lemma in_enumerate {A : Type} (l : list A) (j : nat) (x : A) :
  In (j, x) (enumerate l) <-> nth_error l j = Some x.
Proof.
  unfold enumerate. rewrite in_enumerate_from, Nat.sub_0_r.
  split; [tauto | intros H; split; [lia | exact H]].
Qed.

Lemma enumerate_lt {A : Type} (l : list A) (j : nat) (x : A) :
  In (j, x) (enumerate l) -> j < length l.
Proof.
  intros H. apply in_enumerate in H. apply nth_error_Some. congruence.
Qed.

Lemma fst_enumerate {A : Type} (l : list A) :
  map fst (enumerate l) = seq 0 (length l).
Proof.
  unfold enumerate. generalize 0 as a.
  induction l as [|h t IH]; intros a; cbn; [reflexivity|].
  rewrite IH. reflexivity.
Qed.

(** The test [dist is None] never succeeds: the cell is always stored. *)
Lemma sccmass_cell_stores (i j : nat) (res_a res_b : Residue) (mat : matrix)
    (empty_indices : list (nat * nat)) :
  sccmass_cell i res_a j res_b (mat, empty_indices) =
  (mat' <- mat_set mat i j (to_double (calc_cmass_distance res_a res_b true)) ;;
   Ok (mat', empty_indices)).
Proof. reflexivity. Qed.

Lemma sccmass_row_stores (n i : nat) (res_a : Residue)
    (cols : list (nat * Residue)) (empty_indices : list (nat * nat)) :
  i < n ->
  NoDup (map fst cols) ->
  (forall j res_b, In (j, res_b) cols -> j < n) ->
  forall mat, square n mat ->
  exists mat',
    sccmass_row i res_a cols (mat, empty_indices) = Ok (mat', empty_indices) /\
    square n mat' /\
    (forall j res_b, In (j, res_b) cols ->
       mat_get mat' i j =
       Ok (to_double (calc_cmass_distance res_a res_b true))) /\
    (forall i' j', i' <> i \/ ~ In j' (map fst cols) ->
       mat_get mat' i' j' = mat_get mat i' j').
Proof.
  intros Hi. induction cols as [|[j res_b] rest IH]; intros Hnd Hlt mat Hsq.
  - exists mat. split; [reflexivity|]. split; [exact Hsq|].
    split; [intros ? ? []|reflexivity].
  - cbn [map fst] in Hnd. inversion Hnd as [|? ? Hnotin Hnd']; subst.
    assert (Hj : j < n) by (eapply Hlt; left; reflexivity).
    destruct (mat_set_inside n mat i j
                (to_double (calc_cmass_distance res_a res_b true)) Hsq Hi Hj)
      as (mat1 & Eset & Hsq1 & Hget & Hother).
    destruct (IH Hnd' (fun j' r H => Hlt j' r (or_intror H)) mat1 Hsq1)
      as (mat' & E & Hsq' & Hin & Hout).
    exists mat'. split; [|split; [exact Hsq'|split]].
    + cbn [sccmass_row]. rewrite sccmass_cell_stores, Eset. cbn [bind]. exact E.
    + intros j' res_b' [Eq | Hrest].
      * injection Eq as <- <-.
        rewrite Hout by (right; exact Hnotin). exact Hget.
      * apply Hin. exact Hrest.
    + intros i' j' Hd. cbn [map fst In] in Hd.
      rewrite Hout by tauto. apply Hother.
      intros Eq. injection Eq as -> ->. tauto.
Qed.

Lemma sccmass_rows_stores (n : nat) (residues : list Residue)
    (rows : list (nat * Residue)) (empty_indices : list (nat * nat)) :
  length residues = n ->
  NoDup (map fst rows) ->
  (forall i res_a, In (i, res_a) rows -> i < n) ->
  forall mat, square n mat ->
  exists mat',
    sccmass_rows rows residues (mat, empty_indices) = Ok (mat', empty_indices) /\
    square n mat' /\
    (forall i res_a j res_b,
       In (i, res_a) rows -> In (j, res_b) (enumerate residues) ->
       mat_get mat' i j =
       Ok (to_double (calc_cmass_distance res_a res_b true))) /\
    (forall i' j', ~ In i' (map fst rows) ->
       mat_get mat' i' j' = mat_get mat i' j').
Proof.
  intros Hlen. induction rows as [|[i res_a] rest IH]; intros Hnd Hlt mat Hsq.
  - exists mat. split; [reflexivity|]. split; [exact Hsq|].
    split; [intros ? ? ? ? []|reflexivity].
  - cbn [map fst] in Hnd. inversion Hnd as [|? ? Hnotin Hnd']; subst.
    assert (Hi : i < length residues) by (eapply Hlt; left; reflexivity).
    destruct (sccmass_row_stores (length residues) i res_a (enumerate residues)
                empty_indices Hi) with (mat := mat)
      as (mat1 & Erow & Hsq1 & Hrow & Hrest); [| |exact Hsq|].
    { rewrite fst_enumerate. apply seq_NoDup. }
    { intros j res_b Hin. eapply enumerate_lt. exact Hin. }
    destruct (IH Hnd' (fun i' r H => Hlt i' r (or_intror H)) mat1 Hsq1)
      as (mat' & E & Hsq' & Hin & Hout).
    exists mat'. split; [|split; [exact Hsq'|split]].
    + cbn [sccmass_rows]. rewrite Erow. cbn [bind]. exact E.
    + intros i' res_a' j res_b [Eq | Hr] Hj.
      * injection Eq as <- <-. rewrite Hout by exact Hnotin.
        apply Hrow. exact Hj.
      * apply Hin; assumption.
    + intros i' j' Hn. cbn [map fst In] in Hn.
      rewrite Hout by tauto. apply Hrest. left. intros ->. tauto.
Qed.

(** The branch stores every cell and defers none. *)
Lemma main_sccmass_stores_all (residues : list Residue) :
  exists mat,
    main_sccmass residues = Ok (mat, []) /\
    square (length residues) mat /\
    (forall i j res_a res_b,
       nth_error residues i = Some res_a ->
       nth_error residues j = Some res_b ->
       mat_get mat i j =
       Ok (to_double (calc_cmass_distance res_a res_b true))).
Proof.
  destruct (sccmass_rows_stores (length residues) residues (enumerate residues)
              [] eq_refl) with (mat := zeros (length residues) (length residues))
    as (mat & E & Hsq & Hin & _).
  - rewrite fst_enumerate. apply seq_NoDup.
  - intros i res_a Hin. eapply enumerate_lt. exact Hin.
  - apply square_zeros.
  - exists mat. split; [|split; [exact Hsq|]].
    + unfold main_sccmass. rewrite E. reflexivity.
    + intros i j res_a res_b Ea Eb. apply Hin; apply in_enumerate; assumption.
Qed.

Local Open Scope R_scope.

(** C5 fails on the code: with glycine in the list nothing is deferred, and
    the cells of glycine's row and column hold NaN instead of the largest
    finite entry. *)
Theorem main_sccmass_glycine_nan :
  exists mat,
    main_sccmass [glycine; alanine] = Ok (mat, []) /\
    mat_get mat 0 0 = Ok NaN /\
    mat_get mat 0 1 = Ok NaN /\
    mat_get mat 1 0 = Ok NaN.
Proof.
  destruct (main_sccmass_stores_all [glycine; alanine]) as (mat & E & _ & H).
  assert (Hg : get_sidechain_atoms glycine = []) by reflexivity.
  exists mat. split; [exact E|]. split; [|split].
  - rewrite (H 0%nat 0%nat glycine glycine eq_refl eq_refl).
    rewrite calc_cmass_distance_undefined by (left; exact Hg). reflexivity.
  - rewrite (H 0%nat 1%nat glycine alanine eq_refl eq_refl).
    rewrite calc_cmass_distance_undefined by (left; exact Hg). reflexivity.
  - rewrite (H 1%nat 0%nat alanine glycine eq_refl eq_refl).
    rewrite calc_cmass_distance_undefined by (right; exact Hg). reflexivity.
Qed.

(** ** The virtual CB *)

Lemma get_coord_finite3 (a : Atom) : get_coord a = finite3 (atom_coord a).
Proof. reflexivity. Qed.

Lemma vsub_finite3 (p q : R * R * R) :
  vsub (finite3 p) (finite3 q) = finite3 (Rvsub p q).
Proof.
  destruct p as [[px py] pz], q as [[qx qy] qz]. reflexivity.
Qed.

Lemma vadd_finite3 (p q : R * R * R) :
  vadd (finite3 p) (finite3 q) = finite3 (Rvadd p q).
Proof.
  destruct p as [[px py] pz], q as [[qx qy] qz]. reflexivity.
Qed.

(** On a non-zero axis the library's rotation is the rotation matrix. *)
Lemma left_multiply_rotaxis (v axis : R * R * R) (theta : R) :
  coord_dist axis (0, 0, 0) <> 0 ->
  left_multiply (finite3 v) (rotaxis (Finite theta) (finite3 axis)) =
  finite3 (spec_rotate v axis theta).
Proof.
  destruct v as [[vx vy] vz], axis as [[ax ay] az].
  unfold coord_dist. rewrite !Rminus_0_r. intros Hn.
  unfold left_multiply, rotaxis, normalized, norm, finite3, vdot.
  cbn [fmul fadd]. rewrite fsqrt_finite by apply sum_squares_nonneg.
  rewrite !fdiv_finite by exact Hn.
  unfold spec_rotate, mat_vec, vdot, fcos, fsin, fsub, fopp, fadd, fmul.
  componentwise ltac:(ring).
Qed.

(** The reconstruction, on file coordinates with distinct CA and C. *)
Lemma get_atom_coord_virtual_value (res : Residue) (n ca c : Atom) :
  find_atom res "CB" = None ->
  find_atom res "N" = Some n ->
  find_atom res "CA" = Some ca ->
  find_atom res "C" = Some c ->
  coord_dist (Rvsub (atom_coord c) (atom_coord ca)) (0, 0, 0) <> 0 ->
  get_atom_coord res "CB" =
  Ok (finite3 (code_virtual_CB (atom_coord n) (atom_coord ca) (atom_coord c))).
Proof.
  intros Hcb Hn Hca Hc Hax.
  rewrite (get_atom_coord_virtual res n ca c Hcb Hn Hca Hc).
  unfold get_vector, virtual_angle. rewrite !get_coord_finite3.
  rewrite vsub_finite3, left_multiply_rotaxis by exact Hax.
  rewrite vadd_finite3. reflexivity.
Qed.

Lemma cos_120 : cos (PI * 120 / 180) = - (1 / 2).
Proof.
  replace (PI * 120 / 180) with (2 * (PI / 3)) by field.
  rewrite cos_2PI3. lra.
Qed.

Lemma sin_120 : sin (PI * 120 / 180) = sqrt 3 / 2.
Proof.
  replace (PI * 120 / 180) with (2 * (PI / 3)) by field.
  apply sin_2PI3.
Qed.

(** C1 fails on the code: for a glycine with N = (2,0,0), CA = (1,0,0),
    C = (1,0,1) the lookup returns (0, sqrt 3, 0); CA->N rotated by -120
    degrees about CA->C and added to CA is (1/2, -sqrt 3 / 2, 0). *)
Theorem get_atom_coord_virtual_CB_glycine :
  find_atom glycine_z "CB" = None /\
  get_atom_coord glycine_z "CB" = Ok (Finite 0, Finite (sqrt 3), Finite 0) /\
  spec_virtual_CB (2, 0, 0) (1, 0, 0) (1, 0, 1) = (1 / 2, - (sqrt 3 / 2), 0) /\
  (0, sqrt 3, 0) <> (1 / 2, - (sqrt 3 / 2), 0).
Proof.
  assert (Hs : sqrt (0 * 0 + 0 * 0 + 1 * 1) = 1).
  { replace (0 * 0 + 0 * 0 + 1 * 1) with 1 by lra. apply sqrt_1. }
  split; [reflexivity|]. split; [|split].
  - rewrite (get_atom_coord_virtual_value glycine_z
               (mkAtom "N" (2, 0, 0) 14) (mkAtom "CA" (1, 0, 0) 12)
               (mkAtom "C" (1, 0, 1) 12) eq_refl eq_refl eq_refl eq_refl).
    + cbn [atom_coord]. unfold code_virtual_CB, Rvsub, Rvadd, spec_rotate, finite3.
      replace (1 - 1) with 0 by lra. replace (0 - 0) with 0 by lra.
      replace (1 - 0) with 1 by lra.
      rewrite Hs, cos_120, sin_120. componentwise ltac:(field).
    + cbn [atom_coord]. unfold Rvsub, coord_dist.
      replace ((1 - 1 - 0) * (1 - 1 - 0) + (0 - 0 - 0) * (0 - 0 - 0) +
               (1 - 0 - 0) * (1 - 0 - 0)) with 1 by lra.
      rewrite sqrt_1. lra.
  - unfold spec_virtual_CB, Rvsub, Rvadd, spec_rotate.
    replace (2 - 1) with 1 by lra. replace (1 - 1) with 0 by lra.
    replace (0 - 0) with 0 by lra. replace (1 - 0) with 1 by lra.
    rewrite Hs, cos_neg, sin_neg, cos_120, sin_120. componentwise ltac:(field).
  - intros H. injection H as H _. lra.
Qed.

(** * Further properties of the code *)

(** ** The atom filters *)

Local Open Scope nat_scope.

Lemma atom_class_exclusive (name : string) :
  (if str_in name BACKBONE_ATOMS then 1 else 0) +
  (if negb (str_in name BACKBONE_FULL_ATOMS) then 1 else 0) +
  (if str_in name ["H"; "H1"; "H2"; "H3"; "OXT"]%string then 1 else 0) = 1%nat.
Proof.
  unfold str_in, BACKBONE_ATOMS, BACKBONE_FULL_ATOMS. cbn [existsb].
  destruct (String.eqb_spec name "CA"); [subst; reflexivity|].
  destruct (String.eqb_spec name "C"); [subst; reflexivity|].
  destruct (String.eqb_spec name "O"); [subst; reflexivity|].
  destruct (String.eqb_spec name "N"); [subst; reflexivity|].
  destruct (String.eqb_spec name "H"); [subst; reflexivity|].
  destruct (String.eqb_spec name "H1"); [subst; reflexivity|].
  destruct (String.eqb_spec name "H2"); [subst; reflexivity|].
  destruct (String.eqb_spec name "H3"); [subst; reflexivity|].
  destruct (String.eqb_spec name "OXT"); [subst; reflexivity|].
  reflexivity.
Qed.

(** X1: the backbone filter, the side-chain filter and the atoms named H,
    H1, H2, H3 or OXT split a residue: the three counts add up to the
    number of atoms, and no atom passes both filters. *)
Theorem atom_filters_partition (res : Residue) :
  (length (get_backbone_atoms res) + length (get_sidechain_atoms res) +
   length (filter
             (fun a => str_in (get_id a) ["H"; "H1"; "H2"; "H3"; "OXT"]%string)
             res) = length res)%nat /\
  (forall a, In a (get_backbone_atoms res) -> ~ In a (get_sidechain_atoms res)).
Proof.
  split.
  - unfold get_backbone_atoms, get_sidechain_atoms, get_iterator.
    induction res as [|a t IH]; [reflexivity|].
    pose proof (atom_class_exclusive (get_id a)) as H.
    cbn [filter]. unfold is_backbone, is_sidechain in *.
    destruct (str_in (get_id a) BACKBONE_ATOMS);
      destruct (negb (str_in (get_id a) BACKBONE_FULL_ATOMS));
      destruct (str_in (get_id a) ["H"; "H1"; "H2"; "H3"; "OXT"]%string);
      cbn [length] in *; lia.
  - unfold get_backbone_atoms, get_sidechain_atoms, get_iterator.
    intros a Hb Hs. apply filter_In in Hb, Hs.
    destruct Hb as [_ Hb], Hs as [_ Hs].
    pose proof (atom_class_exclusive (get_id a)) as H.
    unfold is_backbone, is_sidechain in *. rewrite Hb, Hs in H.
    destruct (str_in (get_id a) ["H"; "H1"; "H2"; "H3"; "OXT"]%string);
      discriminate H.
Qed.

Lemma atom_filters_partition_witness :
  ~ In (mkAtom "CA" (1, 0, 0)%R 12%R) (get_sidechain_atoms glycine).
Proof.
  apply (proj2 (atom_filters_partition glycine)).
  right; left; reflexivity.
Defined.

Local Open Scope R_scope.

(** ** get_atom_coord: which errors escape *)

Lemma get_atom_coord_CB_absent (res : Residue) :
  find_atom res "CB" = None ->
  (find_atom res "N" = None \/ find_atom res "CA" = None \/
   find_atom res "C" = None) ->
  get_atom_coord res "CB" = Raise AssertionError.
Proof.
  intros Hcb H. unfold get_atom_coord, getitem, has_id, py_assert.
  rewrite Hcb. cbn [String.eqb Ascii.eqb Bool.eqb negb].
  destruct (find_atom res "N"); [|reflexivity].
  destruct (find_atom res "CA"); [|reflexivity].
  destruct (find_atom res "C"); [|reflexivity].
  destruct H as [H | [H | H]]; discriminate H.
Qed.

Lemma get_atom_coord_CB_cases (res : Residue) :
  (exists A, get_atom_coord res "CB" = Ok A) \/
  (get_atom_coord res "CB" = Raise AssertionError /\
   find_atom res "CB" = None /\
   (find_atom res "N" = None \/ find_atom res "CA" = None \/
    find_atom res "C" = None)).
Proof.
  destruct (find_atom res "CB") as [cb|] eqn:Hcb.
  { left. eexists. apply (get_atom_coord_present _ _ _ Hcb). }
  destruct (find_atom res "N") as [n|] eqn:Hn.
  2:{ right. split; [apply get_atom_coord_CB_absent; auto | auto]. }
  destruct (find_atom res "CA") as [ca|] eqn:Hca.
  2:{ right. split; [apply get_atom_coord_CB_absent; auto | auto]. }
  destruct (find_atom res "C") as [c|] eqn:Hc.
  2:{ right. split; [apply get_atom_coord_CB_absent; auto | auto]. }
  left. eexists. apply (get_atom_coord_virtual res n ca c); assumption.
Qed.

Lemma get_atom_coord_other_cases (res : Residue) (name : string) :
  name <> "CB"%string ->
  (exists a, find_atom res name = Some a /\
             get_atom_coord res name = Ok (get_coord a)) \/
  (find_atom res name = None /\
   get_atom_coord res name = Raise NotImplementedError).
Proof.
  intros Hn. destruct (find_atom res name) as [a|] eqn:Hf.
  - left. exists a. split; [reflexivity | apply get_atom_coord_present; exact Hf].
  - right. split; [reflexivity | apply get_atom_coord_absent_other; assumption].
Qed.

(** X2: the lookup's KeyError never escapes.  The only errors of
    [get_atom_coord] are NotImplementedError (name other than CB, atom
    absent) and AssertionError, which is raised exactly when the name is
    CB, CB is absent and one of N, CA, C is absent too. *)
Theorem get_atom_coord_error_cases (res : Residue) (name : string) :
  (forall e, get_atom_coord res name = Raise e ->
             (e = NotImplementedError /\ name <> "CB"%string /\
              find_atom res name = None) \/
             (e = AssertionError /\ name = "CB"%string)) /\
  (get_atom_coord res name = Raise AssertionError <->
   name = "CB"%string /\ find_atom res "CB" = None /\
   (find_atom res "N" = None \/ find_atom res "CA" = None \/
    find_atom res "C" = None)).
Proof.
  destruct (string_dec name "CB") as [-> | Hn].
  - destruct (get_atom_coord_CB_cases res) as [[A E] | (E & Hcb & Hmiss)].
    + split.
      * intros e H. rewrite E in H. discriminate.
      * split.
        -- intros H. rewrite E in H. discriminate.
        -- intros (_ & Hcb & Hmiss).
           rewrite (get_atom_coord_CB_absent res Hcb Hmiss) in E. discriminate.
    + split.
      * intros e H. rewrite E in H. injection H as <-. right. auto.
      * split; auto.
  - destruct (get_atom_coord_other_cases res name Hn) as [(a & _ & E) | (Hf & E)].
    + split.
      * intros e H. rewrite E in H. discriminate.
      * split; [intros H; rewrite E in H; discriminate | intros [H _]; contradiction].
    + split.
      * intros e H. rewrite E in H. injection H as <-. left. auto.
      * split; [intros H; rewrite E in H; discriminate | intros [H _]; contradiction].
Qed.

Lemma get_atom_coord_error_cases_witness :
  get_atom_coord incomplete_residue "CB" = Raise AssertionError.
Proof.
  apply (proj2 (get_atom_coord_error_cases incomplete_residue "CB")).
  split; [reflexivity|]. split; [reflexivity|]. right; left; reflexivity.
Defined.

(** X3: when CB is absent, N, CA and C are present and C is not at CA's
    position, the lookup returns CA plus the position vector of N rotated
    by +120 degrees (2 pi / 3) about the axis from CA to C. *)
Theorem get_atom_coord_virtual_formula (res : Residue) (n ca c : Atom)
    (Hcb : find_atom res "CB" = None)
    (Hn : find_atom res "N" = Some n)
    (Hca : find_atom res "CA" = Some ca)
    (Hc : find_atom res "C" = Some c)
    (Haxis : coord_dist (atom_coord c) (atom_coord ca) <> 0) :
  get_atom_coord res "CB" =
  Ok (finite3
        (Rvadd (atom_coord ca)
           (spec_rotate (atom_coord n)
              (Rvsub (atom_coord c) (atom_coord ca)) (PI * 120 / 180)))).
Proof.
  apply (get_atom_coord_virtual_value res n ca c Hcb Hn Hca Hc).
  intros H. apply Haxis. rewrite <- H.
  destruct (atom_coord c) as [[cx cy] cz], (atom_coord ca) as [[ax ay] az].
  unfold coord_dist, Rvsub. f_equal. ring.
Qed.

Lemma get_atom_coord_virtual_formula_witness :
  exists v, get_atom_coord glycine_z "CB" = Ok (finite3 v).
Proof.
  eexists.
  apply (get_atom_coord_virtual_formula glycine_z
           (mkAtom "N" (2, 0, 0) 14) (mkAtom "CA" (1, 0, 0) 12)
           (mkAtom "C" (1, 0, 1) 12) eq_refl eq_refl eq_refl eq_refl).
  cbn [atom_coord]. unfold coord_dist.
  replace ((1 - 1) * (1 - 1) + (0 - 0) * (0 - 0) + (1 - 0) * (1 - 0))
    with 1 by lra.
  rewrite sqrt_1. lra.
Defined.

(** ** The centre of mass and its distance *)

Lemma norm_scalar_fsub_comm (x y : float64) :
  norm_scalar (fsub x y) = norm_scalar (fsub y x).
Proof.
  destruct x as [a | | |], y as [b | | |]; try reflexivity.
  unfold fsub, fopp, fadd. rewrite !norm_scalar_finite. f_equal.
  replace (b + - a) with (- (a + - b)) by ring. symmetry. apply Rabs_Ropp.
Qed.

(** The centre-of-mass distance is symmetric in its two residues, for all
    atoms or side chains only, the undefined (NaN) case included. *)
Lemma calc_cmass_distance_swap (res_a res_b : Residue) (sidechain_only : bool) :
  calc_cmass_distance res_a res_b sidechain_only =
  calc_cmass_distance res_b res_a sidechain_only.
Proof.
  unfold calc_cmass_distance. f_equal. apply norm_scalar_fsub_comm.
Qed.

(** X5: the centre-of-mass metric, for all atoms or side chains only,
    always returns a float, never None.  The value is never negative,
    swapping the two residues gives the same value, and it is NaN as soon
    as one of the two selected atom lists is empty. *)
Theorem calc_cmass_distance_outcome (res_a res_b : Residue)
    (sidechain_only : bool) :
  is_None (calc_cmass_distance res_a res_b sidechain_only) = false /\
  ~ f_negative (to_double (calc_cmass_distance res_a res_b sidechain_only)) /\
  calc_cmass_distance res_a res_b sidechain_only =
  calc_cmass_distance res_b res_a sidechain_only /\
  (selected sidechain_only res_a = [] \/ selected sidechain_only res_b = [] ->
   calc_cmass_distance res_a res_b sidechain_only = PyFloat NaN).
Proof.
  split; [reflexivity|]. split; [|split].
  - unfold calc_cmass_distance, to_double, norm_scalar.
    apply not_negative, fsqrt_sign.
  - apply calc_cmass_distance_swap.
  - unfold calc_cmass_distance, selected.
    destruct sidechain_only; intros [-> | ->];
      rewrite calc_center_of_mass_empty, ?fsub_NaN_l, ?fsub_NaN_r; reflexivity.
Qed.

Lemma calc_cmass_distance_outcome_witness :
  calc_cmass_distance [] carbon_a false = PyFloat NaN.
Proof.
  apply (proj2 (proj2 (proj2 (calc_cmass_distance_outcome [] carbon_a false)))).
  left. reflexivity.
Defined.

(** ** calc_minvdw_distance: every outcome *)

Lemma unnamed_or_named (l : list Atom) :
  (forall a, In a l -> get_id a <> EmptyString) \/
  (exists a, In a l /\ get_id a = EmptyString).
Proof.
  induction l as [|a t [IH | (x & Hin & Hx)]].
  - left. intros a [].
  - destruct (string_dec (get_id a) EmptyString) as [E | E].
    + right. exists a. split; [left; reflexivity | exact E].
    + left. intros x [<- | Hin]; [exact E | apply IH; exact Hin].
  - right. exists x. split; [right; exact Hin | exact Hx].
Qed.

Lemma minvdw_pair_unnamed (a b : Atom) (min_dist : pyval) :
  get_id a = EmptyString \/ get_id b = EmptyString ->
  minvdw_pair a b min_dist = Raise IndexError.
Proof.
  intros H. unfold minvdw_pair, str_first.
  destruct (get_id a) as [|ca ta]; [reflexivity|].
  destruct H as [H | H]; [discriminate H|]. rewrite H. reflexivity.
Qed.

Lemma minvdw_inner_unnamed (a : Atom) (bs : list Atom) (min_dist : pyval) :
  bs <> [] ->
  (get_id a = EmptyString \/ exists b, In b bs /\ get_id b = EmptyString) ->
  minvdw_inner a bs min_dist = Raise IndexError.
Proof.
  revert min_dist. induction bs as [|b rest IH]; intros min_dist Hne H;
    [congruence|].
  cbn [minvdw_inner].
  destruct (string_dec (get_id a) EmptyString) as [Ea | Ea].
  { rewrite minvdw_pair_unnamed by (left; exact Ea). reflexivity. }
  destruct (string_dec (get_id b) EmptyString) as [Eb | Eb].
  { rewrite minvdw_pair_unnamed by (right; exact Eb). reflexivity. }
  rewrite minvdw_pair_named by assumption. cbn [bind].
  destruct H as [H | (x & [<- | Hin] & Hx)]; try contradiction.
  apply IH.
  - intros ->. exact Hin.
  - right. exists x. auto.
Qed.

Lemma minvdw_outer_unnamed (atoms_a : list Atom) (res_b : Residue)
    (min_dist : pyval) :
  atoms_a <> [] -> res_b <> [] ->
  (exists a, In a (atoms_a ++ res_b) /\ get_id a = EmptyString) ->
  minvdw_outer atoms_a res_b min_dist = Raise IndexError.
Proof.
  intros Hna Hnb H.
  destruct (unnamed_or_named res_b) as [Hb | Hb].
  - assert (Ha : exists a, In a atoms_a /\ get_id a = EmptyString).
    { destruct H as (x & Hin & Hx). apply in_app_iff in Hin.
      destruct Hin as [Hin | Hin]; [eauto|]. exfalso. exact (Hb x Hin Hx). }
    clear H Hna. revert min_dist.
    induction atoms_a as [|a rest IH]; intros min_dist.
    { destruct Ha as (x & [] & _). }
    cbn [minvdw_outer]. unfold get_iterator.
    destruct (string_dec (get_id a) EmptyString) as [Ea | Ea].
    + rewrite minvdw_inner_unnamed by (auto). reflexivity.
    + rewrite minvdw_inner_named by assumption. cbn [bind]. apply IH.
      destruct Ha as (x & [<- | Hin] & Hx); [contradiction | eauto].
  - destruct atoms_a as [|a rest]; [congruence|].
    cbn [minvdw_outer]. unfold get_iterator.
    rewrite minvdw_inner_unnamed by (auto). reflexivity.
Qed.

Lemma minvdw_outer_no_cols (atoms_a : list Atom) (min_dist : pyval) :
  minvdw_outer atoms_a [] min_dist = Ok min_dist.
Proof.
  induction atoms_a as [|a rest IH]; [reflexivity|]. cbn. exact IH.
Qed.

Lemma in_vdw_gaps (res_a res_b : Residue) (g : R) :
  In g (vdw_gaps res_a res_b) <->
  exists a b, In a res_a /\ In b res_b /\ g = spec_vdw_gap a b.
Proof.
  unfold vdw_gaps. rewrite in_flat_map. split.
  - intros (a & Hia & Hg). apply in_map_iff in Hg.
    destruct Hg as (b & <- & Hib). eauto.
  - intros (a & b & Hia & Hib & ->). exists a. split; [exact Hia|].
    apply in_map. exact Hib.
Qed.

(** The three outcomes of the metric. *)
Lemma calc_minvdw_distance_cases (res_a res_b : Residue) :
  ((res_a = [] \/ res_b = []) /\
   calc_minvdw_distance res_a res_b = Ok PyNone) \/
  (res_a <> [] /\ res_b <> [] /\
   (forall a, In a (res_a ++ res_b) -> get_id a <> EmptyString) /\
   exists m, calc_minvdw_distance res_a res_b = Ok (PyFloat (Finite m)) /\
             In m (vdw_gaps res_a res_b) /\
             (forall g, In g (vdw_gaps res_a res_b) -> m <= g)) \/
  (res_a <> [] /\ res_b <> [] /\
   (exists a, In a (res_a ++ res_b) /\ get_id a = EmptyString) /\
   calc_minvdw_distance res_a res_b = Raise IndexError).
Proof.
  unfold calc_minvdw_distance, get_iterator.
  destruct res_a as [|a0 ta].
  { left. split; [left; reflexivity | reflexivity]. }
  destruct res_b as [|b0 tb].
  { left. split; [right; reflexivity | apply minvdw_outer_no_cols]. }
  right.
  destruct (unnamed_or_named ((a0 :: ta) ++ (b0 :: tb))) as [Hn | Hu].
  - left. split; [discriminate|]. split; [discriminate|]. split; [exact Hn|].
    rewrite minvdw_outer_named
      by (intros x Hx; apply Hn; apply in_app_iff; auto).
    fold (vdw_gaps (a0 :: ta) (b0 :: tb)).
    destruct (min_step_fold_none (vdw_gaps (a0 :: ta) (b0 :: tb)))
      as (m & E & Hin & Hall).
    { intros E. assert (Hin : In (spec_vdw_gap a0 b0) (vdw_gaps (a0 :: ta) (b0 :: tb))).
      { apply in_vdw_gaps. exists a0, b0. cbn; auto. }
      rewrite E in Hin. exact Hin. }
    exists m. rewrite E. auto.
  - right. split; [discriminate|]. split; [discriminate|]. split; [exact Hu|].
    apply minvdw_outer_unnamed; [discriminate | discriminate | exact Hu].
Qed.

(** X6: the minvdw metric returns None exactly when one of the two
    residues has no atoms. *)
Theorem calc_minvdw_distance_None_iff (res_a res_b : Residue) :
  calc_minvdw_distance res_a res_b = Ok PyNone <-> res_a = [] \/ res_b = [].
Proof.
  destruct (calc_minvdw_distance_cases res_a res_b)
    as [[He E] | [(Ha & Hb & _ & m & E & _) | (Ha & Hb & _ & E)]];
    rewrite E; split; auto; try discriminate; intros [H | H]; contradiction.
Qed.

Lemma calc_minvdw_distance_None_iff_witness :
  calc_minvdw_distance [] carbon_a = Ok PyNone.
Proof.
  apply (proj2 (calc_minvdw_distance_None_iff [] carbon_a)).
  left; reflexivity.
Defined.

(** X7: the only exception of the minvdw metric is IndexError, raised
    exactly when both residues have atoms and some atom of either has an
    empty name. *)
Theorem calc_minvdw_distance_raises_iff (res_a res_b : Residue) (e : pyerr) :
  calc_minvdw_distance res_a res_b = Raise e <->
  e = IndexError /\ res_a <> [] /\ res_b <> [] /\
  exists a, In a (res_a ++ res_b) /\ get_id a = EmptyString.
Proof.
  destruct (calc_minvdw_distance_cases res_a res_b)
    as [[He E] | [(Ha & Hb & Hn & m & E & _) | (Ha & Hb & Hu & E)]];
    rewrite E; split.
  - discriminate.
  - intros (_ & Ha & Hb & _). destruct He; contradiction.
  - discriminate.
  - intros (_ & _ & _ & x & Hin & Hx). exfalso. exact (Hn x Hin Hx).
  - intros H. injection H as <-. auto.
  - intros (-> & _). reflexivity.
Qed.

Lemma calc_minvdw_distance_raises_iff_witness :
  calc_minvdw_distance [mkAtom EmptyString (0, 0, 0) 12] carbon_a =
  Raise IndexError.
Proof.
  apply (proj2 (calc_minvdw_distance_raises_iff
                  [mkAtom EmptyString (0, 0, 0) 12] carbon_a IndexError)).
  split; [reflexivity|]. split; [discriminate|]. split; [discriminate|].
  exists (mkAtom EmptyString (0, 0, 0) 12). split; [left|]; reflexivity.
Defined.

Lemma coord_dist_self (p : R * R * R) : coord_dist p p = 0.
Proof.
  destruct p as [[px py] pz]. unfold coord_dist.
  replace ((px - px) * (px - px) + (py - py) * (py - py) + (pz - pz) * (pz - pz))
    with 0 by ring.
  apply sqrt_0.
Qed.

Lemma spec_vdw_radius_range (a : Atom) : 0 <= spec_vdw_radius a <= 185 / 100.
Proof.
  unfold spec_vdw_radius. destruct (get_id a) as [|c rest]; [lra|].
  destruct c as [[] [] [] [] [] [] [] []]; lra.
Qed.

(** Swapping the two residues keeps the kind of outcome of the minvdw
    metric: the same exception, or None. *)
Lemma calc_minvdw_distance_swap_kind (res_a res_b : Residue) :
  (forall e, calc_minvdw_distance res_a res_b = Raise e ->
             calc_minvdw_distance res_b res_a = Raise e) /\
  (calc_minvdw_distance res_a res_b = Ok PyNone ->
   calc_minvdw_distance res_b res_a = Ok PyNone).
Proof.
  destruct (calc_minvdw_distance_cases res_a res_b)
    as [[He E] | [(Ha & Hb & Hn & m & E & _) | (Ha & Hb & Hu & E)]];
  destruct (calc_minvdw_distance_cases res_b res_a)
    as [[He' E'] | [(Hb' & Ha' & Hn' & m' & E' & _) | (Hb' & Ha' & Hu' & E')]];
  rewrite E, E'; split; try discriminate; auto;
    try (destruct He; contradiction); try (destruct He'; contradiction).
  all: exfalso; destruct Hu as (x & Hin & Hx); apply (Hn' x); [|exact Hx];
    apply in_app_iff; apply in_app_iff in Hin; tauto.
Qed.

(** X8: a number returned by the minvdw metric is never above the
    centre-to-centre distance of any atom pair of the two residues, and
    from a residue to itself it is never positive. *)
Theorem calc_minvdw_distance_bounds (res_a res_b : Residue) (x : float64) :
  calc_minvdw_distance res_a res_b = Ok (PyFloat x) ->
  (forall a b, In a res_a -> In b res_b ->
               flt (norm (vsub (get_coord a) (get_coord b))) x = false) /\
  (res_a = res_b -> flt (Finite 0) x = false).
Proof.
  intros H.
  destruct (calc_minvdw_distance_cases res_a res_b)
    as [[He E] | [(Ha & Hb & Hn & m & E & Hin & Hmin) | (Ha & Hb & Hu & E)]];
    rewrite E in H; try discriminate.
  injection H as <-.
  assert (Hpair : forall a b, In a res_a -> In b res_b -> m <= spec_vdw_gap a b).
  { intros a b Hia Hib. apply Hmin. apply in_vdw_gaps. eauto. }
  split.
  - intros a b Hia Hib. rewrite norm_vsub_coord. apply flt_finite_false.
    pose proof (Hpair a b Hia Hib) as Hle. unfold spec_vdw_gap in Hle.
    pose proof (spec_vdw_radius_range a). pose proof (spec_vdw_radius_range b).
    lra.
  - intros <-. apply flt_finite_false.
    destruct res_a as [|a t]; [congruence|].
    pose proof (Hpair a a (or_introl eq_refl) (or_introl eq_refl)) as Hle.
    unfold spec_vdw_gap in Hle. rewrite coord_dist_self in Hle.
    pose proof (spec_vdw_radius_range a). lra.
Qed.

Lemma calc_minvdw_distance_bounds_witness :
  flt (norm (vsub (get_coord (mkAtom "C" (0, 0, 0) 12))
                  (get_coord (mkAtom "C" (3, 4, 0) 12))))
      (pair_dist (mkAtom "C" (0, 0, 0) 12) (mkAtom "C" (3, 4, 0) 12)) = false.
Proof.
  apply (proj1 (calc_minvdw_distance_bounds carbon_a carbon_b
                  (pair_dist (mkAtom "C" (0, 0, 0) 12)
                             (mkAtom "C" (3, 4, 0) 12))
                  eq_refl)
           (mkAtom "C" (0, 0, 0) 12) (mkAtom "C" (3, 4, 0) 12)).
  - left. reflexivity.
  - left. reflexivity.
Defined.

(** ** calc_distance is symmetric *)

Lemma fsub_square_comm (x y : float64) :
  fmul (fsub x y) (fsub x y) = fmul (fsub y x) (fsub y x).
Proof.
  destruct x as [a | | |], y as [b | | |]; try reflexivity.
  unfold fsub, fopp, fadd, fmul. f_equal. ring.
Qed.

Lemma norm_vsub_comm (A B : vec3) : norm (vsub A B) = norm (vsub B A).
Proof.
  destruct A as [[a0 a1] a2], B as [[b0 b1] b2].
  unfold norm, vsub, vdot.
  rewrite (fsub_square_comm a0 b0), (fsub_square_comm a1 b1),
    (fsub_square_comm a2 b2).
  reflexivity.
Qed.

(** For one name all failures of the lookup are the same exception. *)
Lemma get_atom_coord_one_error (res res' : Residue) (name : string)
    (e e' : pyerr) :
  get_atom_coord res name = Raise e ->
  get_atom_coord res' name = Raise e' ->
  e = e'.
Proof.
  intros H H'.
  destruct (string_dec name "CB") as [-> | Hn].
  - destruct (get_atom_coord_CB_cases res) as [[A E] | (E & _)];
      rewrite E in H; [discriminate|].
    destruct (get_atom_coord_CB_cases res') as [[A E'] | (E' & _)];
      rewrite E' in H'; [discriminate|].
    congruence.
  - destruct (get_atom_coord_other_cases res name Hn) as [(a & _ & E) | (_ & E)];
      rewrite E in H; [discriminate|].
    destruct (get_atom_coord_other_cases res' name Hn)
      as [(a & _ & E') | (_ & E')];
      rewrite E' in H'; [discriminate|].
    congruence.
Qed.

Lemma calc_distance_swap (res_a res_b : Residue) (metric : string) :
  metric <> "minvdw"%string ->
  calc_distance res_a res_b metric = calc_distance res_b res_a metric.
Proof.
  intros Hne. unfold calc_distance.
  destruct (str_in metric ["CA"; "CB"]%string).
  - destruct (get_atom_coord res_a metric) as [A | e] eqn:Ea;
      destruct (get_atom_coord res_b metric) as [B | e'] eqn:Eb; cbn [bind].
    + rewrite norm_vsub_comm. reflexivity.
    + reflexivity.
    + reflexivity.
    + f_equal. exact (get_atom_coord_one_error _ _ _ _ _ Ea Eb).
  - destruct (String.eqb metric "cmass").
    + f_equal. apply calc_cmass_distance_swap.
    + destruct (String.eqb_spec metric "minvdw"); [contradiction | reflexivity].
Qed.

(** X9: for every selector other than minvdw the dispatcher is symmetric
    in its two residues: swapping them gives the same value or the same
    exception.  For every selector, minvdw included, swapping keeps the
    kind of outcome: the same exception, or None. *)
Theorem calc_distance_sym (res_a res_b : Residue) (metric : string) :
  (metric <> "minvdw"%string ->
   calc_distance res_a res_b metric = calc_distance res_b res_a metric) /\
  (forall e, calc_distance res_a res_b metric = Raise e <->
             calc_distance res_b res_a metric = Raise e) /\
  (calc_distance res_a res_b metric = Ok PyNone <->
   calc_distance res_b res_a metric = Ok PyNone).
Proof.
  split; [apply calc_distance_swap|].
  destruct (string_dec metric "minvdw") as [-> | Hne].
  - unfold calc_distance.
    cbn [str_in existsb String.eqb Ascii.eqb Bool.eqb orb].
    destruct (calc_minvdw_distance_swap_kind res_a res_b) as [Hr Hn].
    destruct (calc_minvdw_distance_swap_kind res_b res_a) as [Hr' Hn'].
    split; [intros e; split; auto | split; auto].
  - rewrite (calc_distance_swap res_a res_b metric Hne).
    split; [intros e|]; reflexivity.
Qed.

Lemma calc_distance_sym_witness :
  calc_distance ca_a ca_b "CA" = calc_distance ca_b ca_a "CA".
Proof.
  apply (proj1 (calc_distance_sym ca_a ca_b "CA")). discriminate.
Defined.

(** ** make_dist_matrix: when it returns and how it fails *)

Local Open Scope nat_scope.

(** A failed loop stopped at a pair whose distance raised, after pairs
    that all had a distance. *)
Lemma fill_pairs_Raise (residues : list Residue) (metric : string) (n : nat)
    (e : pyerr) (pairs : list (nat * nat)) :
  (forall i j, In (i, j) pairs ->
     i < n /\ j < n /\ i < length residues /\ j < length residues) ->
  forall mat, square n mat ->
  fill_pairs residues metric pairs mat = Raise e ->
  exists before i j after res_a res_b,
    pairs = before ++ (i, j) :: after /\
    nth_error residues i = Some res_a /\
    nth_error residues j = Some res_b /\
    calc_distance res_a res_b metric = Raise e /\
    (forall i' j', In (i', j') before ->
       exists ra rb v,
         nth_error residues i' = Some ra /\ nth_error residues j' = Some rb /\
         calc_distance ra rb metric = Ok v).
Proof.
  induction pairs as [|[i j] rest IH]; intros Hin mat Hsq H; [discriminate H|].
  destruct (Hin i j (or_introl eq_refl)) as (Hi & Hj & Hil & Hjl).
  destruct (list_index_lt residues i Hil) as [res_a Ea].
  destruct (list_index_lt residues j Hjl) as [res_b Eb].
  cbn [fill_pairs] in H. rewrite Ea, Eb in H. cbn [bind] in H.
  apply list_index_Ok in Ea, Eb.
  destruct (calc_distance res_a res_b metric) as [v | e'] eqn:Ev; cbn [bind] in H.
  - destruct (mat_set_inside n mat i j (to_double v) Hsq Hi Hj)
      as (mat1 & Eset & Hsq1 & _).
    rewrite Eset in H. cbn [bind] in H.
    destruct (IH (fun i' j' Hr => Hin i' j' (or_intror Hr)) mat1 Hsq1 H)
      as (before & i0 & j0 & after & ra & rb & -> & Ea0 & Eb0 & E0 & Hbefore).
    exists ((i, j) :: before), i0, j0, after, ra, rb.
    split; [reflexivity|]. repeat (split; [assumption|]).
    intros i' j' [Eq | Hb].
    + injection Eq as <- <-. exists res_a, res_b, v. auto.
    + apply Hbefore. exact Hb.
  - injection H as <-.
    exists [], i, j, rest, res_a, res_b.
    split; [reflexivity|]. repeat (split; [assumption|]). intros ? ? [].
Qed.

Lemma sorted_after (before after : list (nat * nat)) (p : nat * nat) :
  StronglySorted pair_lt (before ++ p :: after) -> Forall (pair_lt p) after.
Proof.
  induction before as [|q before IH]; cbn; intros H.
  - inversion H; assumption.
  - inversion H; subst. apply IH. assumption.
Qed.

(** X10: the builder returns a matrix exactly when every pair i < j of the
    list has a distance under the metric; when it fails, its exception is
    the one raised for the first pair, in lexicographic order, that has no
    distance. *)
Theorem make_dist_matrix_returns_iff (residues : list Residue) (metric : string) :
  ((exists mat, make_dist_matrix residues metric = Ok mat) <->
   (forall i j res_a res_b,
       i < j ->
       nth_error residues i = Some res_a ->
       nth_error residues j = Some res_b ->
       exists v, calc_distance res_a res_b metric = Ok v)) /\
  (forall e,
      make_dist_matrix residues metric = Raise e ->
      exists i j res_a res_b,
        i < j /\
        nth_error residues i = Some res_a /\
        nth_error residues j = Some res_b /\
        calc_distance res_a res_b metric = Raise e /\
        (forall i' j' ra rb,
            i' < j' -> pair_lt (i', j') (i, j) ->
            nth_error residues i' = Some ra ->
            nth_error residues j' = Some rb ->
            exists v, calc_distance ra rb metric = Ok v)).
Proof.
  split; [split|].
  - intros [mat E] i j res_a res_b Hij Ea Eb.
    destruct (make_dist_matrix_Ok residues metric mat E) as (_ & Hup & _).
    assert (Hj : j < length residues) by (apply nth_error_Some; congruence).
    destruct (Hup i j (conj Hij Hj)) as (ra & rb & v & Ea' & Eb' & Ev & _).
    rewrite Ea in Ea'. rewrite Eb in Eb'.
    injection Ea' as <-. injection Eb' as <-. eauto.
  - apply make_dist_matrix_total.
  - intros e H. unfold make_dist_matrix, xrange in H.
    set (n := length residues) in *.
    pose proof (sorted_combinations2_seq 0 n) as Hsorted.
    destruct (fill_pairs_Raise residues metric n e (combinations2 (seq 0 n)))
      with (mat := zeros n n)
      as (before & i & j & after & res_a & res_b & Epairs & Ea & Eb & Ev & Hbefore);
      [| apply square_zeros | exact H |].
    { intros i j Hin. apply in_combinations2_seq in Hin. unfold n in *. lia. }
    assert (Hin : In (i, j) (combinations2 (seq 0 n))).
    { rewrite Epairs. apply in_app_iff. right. left. reflexivity. }
    apply in_combinations2_seq in Hin.
    exists i, j, res_a, res_b. split; [lia|]. repeat (split; [assumption|]).
    intros i' j' ra rb Hij' Hlt Ea' Eb'.
    assert (Hj' : j' < n) by (apply nth_error_Some; congruence).
    assert (Hin' : In (i', j') (combinations2 (seq 0 n))).
    { apply in_combinations2_seq. lia. }
    rewrite Epairs in Hin', Hsorted.
    apply in_app_iff in Hin'. destruct Hin' as [Hb | [Eq | Ha]].
    + destruct (Hbefore i' j' Hb) as (ra' & rb' & v & Ea'' & Eb'' & Ev').
      rewrite Ea' in Ea''. rewrite Eb' in Eb''.
      injection Ea'' as <-. injection Eb'' as <-. eauto.
    + injection Eq as <- <-. exfalso. exact (pair_lt_irrefl _ Hlt).
    + exfalso. pose proof (sorted_after _ _ _ Hsorted) as Hafter.
      rewrite Forall_forall in Hafter. specialize (Hafter _ Ha).
      unfold pair_lt in Hlt, Hafter. cbn in Hlt, Hafter. lia.
Qed.

Lemma make_dist_matrix_returns_iff_witness :
  exists mat, make_dist_matrix [carbon_a; carbon_b] "minvdw" = Ok mat.
Proof.
  apply (proj2 (proj1 (make_dist_matrix_returns_iff [carbon_a; carbon_b] "minvdw"))).
  intros i j res_a res_b Hij Ea Eb.
  destruct i as [|[|i]], j as [|[|j]]; cbn in Ea, Eb; try lia;
    try discriminate; try (destruct i; discriminate);
    try (destruct j; discriminate).
  injection Ea as <-. injection Eb as <-.
  eexists. exact carbon_a_b_distance.
Defined.

Lemma calc_distance_unsupported (res_a res_b : Residue) (metric : string) :
  ~ In metric ["CA"; "CB"; "cmass"; "minvdw"]%string ->
  calc_distance res_a res_b metric = Raise NotImplementedError.
Proof.
  intros Hn. unfold calc_distance.
  destruct (str_in metric ["CA"; "CB"]%string) eqn:E1.
  { apply str_in_pair in E1. exfalso. apply Hn.
    destruct E1 as [-> | ->]; cbn; tauto. }
  destruct (String.eqb_spec metric "cmass") as [-> | _].
  { exfalso. apply Hn. cbn; tauto. }
  destruct (String.eqb_spec metric "minvdw") as [-> | _].
  { exfalso. apply Hn. cbn; tauto. }
  reflexivity.
Qed.

(** X11: on fewer than two residues the builder returns the zero matrix
    for every selector, supported or not; on two or more residues every
    selector other than CA, CB, cmass and minvdw (the function's own
    default "ca" among them) makes it raise NotImplementedError. *)
Theorem make_dist_matrix_small_or_unsupported (residues : list Residue)
    (metric : string) :
  (length residues < 2 ->
   make_dist_matrix residues metric =
   Ok (zeros (length residues) (length residues))) /\
  (2 <= length residues ->
   ~ In metric ["CA"; "CB"; "cmass"; "minvdw"]%string ->
   make_dist_matrix residues metric = Raise NotImplementedError) /\
  ~ In "ca"%string ["CA"; "CB"; "cmass"; "minvdw"]%string.
Proof.
  split; [|split].
  - destruct residues as [|r0 [|r1 rest]]; cbn [length]; try lia;
      intros _; reflexivity.
  - destruct residues as [|r0 [|r1 rest]]; cbn [length]; try lia.
    intros _ Hn. unfold make_dist_matrix, xrange.
    cbn [length seq combinations2 map app fill_pairs list_index nth_error bind].
    rewrite calc_distance_unsupported by exact Hn. reflexivity.
  - cbn. intros [H | [H | [H | [H | []]]]]; discriminate H.
Qed.

Lemma make_dist_matrix_small_or_unsupported_witness :
  make_dist_matrix [carbon_a; carbon_b] "ca" = Raise NotImplementedError.
Proof.
  apply (proj1 (proj2 (make_dist_matrix_small_or_unsupported
                         [carbon_a; carbon_b] "ca"))).
  - cbn. lia.
  - cbn. intros [H | [H | [H | [H | []]]]]; discriminate H.
Defined.

(** ** The minvdw and cmass branches of the driver *)

Lemma full_row_cases (dist : Residue -> Residue -> result pyval) (n i : nat)
    (res_a : Residue) (cols : list (nat * Residue)) :
  i < n ->
  NoDup (map fst cols) ->
  (forall j res_b, In (j, res_b) cols -> j < n) ->
  forall mat, square n mat ->
  match full_row dist i res_a cols mat with
  | Ok mat' =>
      square n mat' /\
      (forall j res_b, In (j, res_b) cols ->
         exists v, dist res_a res_b = Ok v /\
                   mat_get mat' i j = Ok (to_double v)) /\
      (forall i' j', i' <> i \/ ~ In j' (map fst cols) ->
         mat_get mat' i' j' = mat_get mat i' j')
  | Raise e => exists j res_b, In (j, res_b) cols /\ dist res_a res_b = Raise e
  end.
Proof.
  intros Hi. induction cols as [|[j res_b] rest IH]; intros Hnd Hlt mat Hsq.
  - cbn. split; [exact Hsq|]. split; [intros ? ? [] | reflexivity].
  - cbn [map fst] in Hnd. inversion Hnd as [|? ? Hnotin Hnd']; subst.
    assert (Hj : j < n) by (eapply Hlt; left; reflexivity).
    cbn [full_row].
    destruct (dist res_a res_b) as [v | e] eqn:Ev; cbn [bind].
    2:{ exists j, res_b. split; [left; reflexivity | exact Ev]. }
    destruct (mat_set_inside n mat i j (to_double v) Hsq Hi Hj)
      as (mat1 & Eset & Hsq1 & Hget & Hother).
    rewrite Eset. cbn [bind].
    specialize (IH Hnd' (fun j' r H => Hlt j' r (or_intror H)) mat1 Hsq1).
    destruct (full_row dist i res_a rest mat1) as [mat' | e].
    + destruct IH as (Hsq' & Hin & Hout).
      split; [exact Hsq'|]. split.
      * intros j' res_b' [Eq | Hrest].
        -- injection Eq as <- <-. exists v. split; [exact Ev|].
           rewrite Hout by (right; exact Hnotin). exact Hget.
        -- apply Hin. exact Hrest.
      * intros i' j' Hd. cbn [map fst In] in Hd.
        rewrite Hout by tauto. apply Hother.
        intros Eq. injection Eq as -> ->. tauto.
    + destruct IH as (j' & res_b' & Hin & E).
      exists j', res_b'. split; [right; exact Hin | exact E].
Qed.

Lemma full_rows_cases (dist : Residue -> Residue -> result pyval)
    (residues : list Residue) (rows : list (nat * Residue)) :
  NoDup (map fst rows) ->
  (forall i res_a, In (i, res_a) rows -> i < length residues) ->
  forall mat, square (length residues) mat ->
  match full_rows dist rows residues mat with
  | Ok mat' =>
      square (length residues) mat' /\
      (forall i res_a j res_b,
         In (i, res_a) rows -> In (j, res_b) (enumerate residues) ->
         exists v, dist res_a res_b = Ok v /\
                   mat_get mat' i j = Ok (to_double v)) /\
      (forall i' j', ~ In i' (map fst rows) ->
         mat_get mat' i' j' = mat_get mat i' j')
  | Raise e =>
      exists i res_a j res_b,
        In (i, res_a) rows /\ In (j, res_b) (enumerate residues) /\
        dist res_a res_b = Raise e
  end.
Proof.
  induction rows as [|[i res_a] rest IH]; intros Hnd Hlt mat Hsq.
  - cbn. split; [exact Hsq|]. split; [intros ? ? ? ? [] | reflexivity].
  - cbn [map fst] in Hnd. inversion Hnd as [|? ? Hnotin Hnd']; subst.
    assert (Hi : i < length residues) by (eapply Hlt; left; reflexivity).
    cbn [full_rows].
    pose proof (full_row_cases dist (length residues) i res_a
                  (enumerate residues) Hi) as Hrow.
    specialize (Hrow ltac:(rewrite fst_enumerate; apply seq_NoDup)
                     (fun j r H => enumerate_lt residues j r H) mat Hsq).
    destruct (full_row dist i res_a (enumerate residues) mat) as [mat1 | e];
      cbn [bind].
    2:{ destruct Hrow as (j & res_b & Hin & E).
        exists i, res_a, j, res_b. split; [left; reflexivity | auto]. }
    destruct Hrow as (Hsq1 & Hrow & Hrest).
    specialize (IH Hnd' (fun i' r H => Hlt i' r (or_intror H)) mat1 Hsq1).
    destruct (full_rows dist rest residues mat1) as [mat' | e].
    + destruct IH as (Hsq' & Hin & Hout).
      split; [exact Hsq'|]. split.
      * intros i' res_a' j res_b [Eq | Hr] Hj.
        -- injection Eq as <- <-. destruct (Hrow j res_b Hj) as (v & Ev & Hget).
           exists v. split; [exact Ev|]. rewrite Hout by exact Hnotin. exact Hget.
        -- apply Hin; assumption.
      * intros i' j' Hn. cbn [map fst In] in Hn.
        rewrite Hout by tauto. apply Hrest. left. intros ->. tauto.
    + destruct IH as (i' & res_a' & j & res_b & Hin & Hj & E).
      exists i', res_a', j, res_b. split; [right; exact Hin | auto].
Qed.

(** The outcome of either branch, in terms of its metric function. *)
Lemma full_matrix_cases (dist : Residue -> Residue -> result pyval)
    (residues : list Residue) :
  match full_rows dist (enumerate residues) residues
          (zeros (length residues) (length residues)) with
  | Ok mat =>
      square (length residues) mat /\
      (forall i j res_a res_b,
         nth_error residues i = Some res_a ->
         nth_error residues j = Some res_b ->
         exists v, dist res_a res_b = Ok v /\
                   mat_get mat i j = Ok (to_double v))
  | Raise e =>
      exists i j res_a res_b,
        nth_error residues i = Some res_a /\
        nth_error residues j = Some res_b /\
        dist res_a res_b = Raise e
  end.
Proof.
  pose proof (full_rows_cases dist residues (enumerate residues)) as H.
  specialize (H ltac:(rewrite fst_enumerate; apply seq_NoDup)
                (fun i r Hin => enumerate_lt residues i r Hin)
                _ (square_zeros (length residues))).
  destruct (full_rows dist (enumerate residues) residues
              (zeros (length residues) (length residues))) as [mat | e].
  - destruct H as (Hsq & Hin & _). split; [exact Hsq|].
    intros i j res_a res_b Ea Eb. apply Hin; apply in_enumerate; assumption.
  - destruct H as (i & res_a & j & res_b & Hi & Hj & E).
    apply in_enumerate in Hi, Hj. exists i, j, res_a, res_b. auto.
Qed.

Local Open Scope R_scope.

(** X12: the cmass branch of the driver never fails: it returns a square
    matrix whose cell [i][j] holds the centre-of-mass distance of
    residues i and j, and the matrix is symmetric. *)
Theorem main_cmass_matrix (residues : list Residue) :
  exists mat,
    main_cmass residues = Ok mat /\
    square (length residues) mat /\
    (forall i j res_a res_b,
        nth_error residues i = Some res_a ->
        nth_error residues j = Some res_b ->
        mat_get mat i j = Ok (to_double (calc_cmass_distance res_a res_b false))) /\
    (forall i j, (i < length residues)%nat -> (j < length residues)%nat ->
                 mat_get mat i j = mat_get mat j i).
Proof.
  unfold main_cmass.
  pose proof (full_matrix_cases
                (fun res_a res_b => Ok (calc_cmass_distance res_a res_b false))
                residues) as H.
  cbv beta in H.
  destruct (full_rows _ (enumerate residues) residues
              (zeros (length residues) (length residues))) as [mat | e].
  2:{ destruct H as (? & ? & ? & ? & _ & _ & E). discriminate E. }
  destruct H as (Hsq & Hcell).
  assert (Hval : forall i j res_a res_b,
             nth_error residues i = Some res_a ->
             nth_error residues j = Some res_b ->
             mat_get mat i j =
             Ok (to_double (calc_cmass_distance res_a res_b false))).
  { intros i j res_a res_b Ea Eb.
    destruct (Hcell i j res_a res_b Ea Eb) as (v & Ev & Hget).
    injection Ev as <-. exact Hget. }
  exists mat. split; [reflexivity|]. split; [exact Hsq|]. split; [exact Hval|].
  intros i j Hi Hj.
  destruct (nth_error residues i) as [res_a|] eqn:Ea.
  2:{ apply nth_error_None in Ea. lia. }
  destruct (nth_error residues j) as [res_b|] eqn:Eb.
  2:{ apply nth_error_None in Eb. lia. }
  rewrite (Hval i j res_a res_b Ea Eb), (Hval j i res_b res_a Eb Ea).
  rewrite calc_cmass_distance_swap. reflexivity.
Qed.

Lemma main_cmass_matrix_witness :
  exists mat, main_cmass [side_x; side_y] = Ok mat /\
              mat_get mat 0 1 = mat_get mat 1 0.
Proof.
  destruct (main_cmass_matrix [side_x; side_y]) as (mat & E & _ & _ & Hs).
  exists mat. split; [exact E|].
  apply (Hs 0%nat 1%nat); cbn; lia.
Defined.

(** X13: the minvdw branch of the driver can only fail with IndexError,
    and returns when every atom has a non-empty name.  Every cell [i][j]
    of a returned matrix holds what the metric returns for residues i and
    j; a cell of a residue without atoms holds NaN (the stored None), and
    the diagonal cell of a residue with atoms is never positive. *)
Theorem main_minvdw_matrix (residues : list Residue) :
  (forall e, main_minvdw residues = Raise e -> e = IndexError) /\
  ((forall res a, In res residues -> In a res -> get_id a <> EmptyString) ->
   exists mat, main_minvdw residues = Ok mat) /\
  (forall mat,
      main_minvdw residues = Ok mat ->
      square (length residues) mat /\
      (forall i j res_a res_b,
          nth_error residues i = Some res_a ->
          nth_error residues j = Some res_b ->
          exists v, calc_minvdw_distance res_a res_b = Ok v /\
                    mat_get mat i j = Ok (to_double v)) /\
      (forall i j res_a res_b,
          nth_error residues i = Some res_a ->
          nth_error residues j = Some res_b ->
          res_a = [] \/ res_b = [] ->
          mat_get mat i j = Ok NaN) /\
      (forall i res,
          nth_error residues i = Some res -> res <> [] ->
          exists x, mat_get mat i i = Ok x /\ flt (Finite 0) x = false)).
Proof.
  unfold main_minvdw.
  pose proof (full_matrix_cases calc_minvdw_distance residues) as H.
  destruct (full_rows calc_minvdw_distance (enumerate residues) residues
              (zeros (length residues) (length residues))) as [mat | e0].
  - destruct H as (Hsq & Hcell).
    split; [discriminate|]. split; [eauto|].
    intros mat' E. injection E as <-. split; [exact Hsq|].
    split; [|split].
    + intros i j res_a res_b Ea Eb. apply Hcell; assumption.
    + intros i j res_a res_b Ea Eb He.
      destruct (Hcell i j res_a res_b Ea Eb) as (v & Ev & Hget).
      destruct (calc_minvdw_distance_cases res_a res_b)
        as [[_ E] | [(Ha & Hb & _) | (Ha & Hb & _)]];
        try (destruct He; contradiction).
      rewrite E in Ev. injection Ev as <-. exact Hget.
    + intros i res Ei Hne.
      destruct (Hcell i i res res Ei Ei) as (v & Ev & Hget).
      destruct (calc_minvdw_distance_cases res res)
        as [[He _] | [(_ & _ & _ & m & E & _ & Hmin) | (_ & _ & _ & E)]].
      * destruct He; contradiction.
      * rewrite E in Ev. injection Ev as <-. exists (Finite m).
        split; [exact Hget|]. apply flt_finite_false.
        destruct res as [|a t]; [congruence|].
        assert (Hle : m <= spec_vdw_gap a a).
        { apply Hmin. apply in_vdw_gaps. exists a, a. cbn; auto. }
        unfold spec_vdw_gap in Hle. rewrite coord_dist_self in Hle.
        pose proof (spec_vdw_radius_range a). lra.
      * rewrite E in Ev. discriminate Ev.
  - destruct H as (i & j & res_a & res_b & Ea & Eb & E).
    split; [|split; [|discriminate]].
    + intros e H. injection H as <-.
      destruct (calc_minvdw_distance_cases res_a res_b)
        as [[_ E'] | [(_ & _ & _ & m & E' & _) | (_ & _ & _ & E')]];
        rewrite E' in E; congruence.
    + intros Hnamed. exfalso.
      destruct (calc_minvdw_distance_cases res_a res_b)
        as [[_ E'] | [(_ & _ & _ & m & E' & _) | (_ & _ & (x & Hin & Hx) & _)]];
        try (rewrite E' in E; discriminate E).
      apply in_app_iff in Hin. destruct Hin as [Hin | Hin].
      * apply (Hnamed res_a x (nth_error_In _ _ Ea) Hin Hx).
      * apply (Hnamed res_b x (nth_error_In _ _ Eb) Hin Hx).
Qed.

Lemma main_minvdw_matrix_witness :
  exists mat, main_minvdw [carbon_a; carbon_b] = Ok mat.
Proof.
  apply (proj1 (proj2 (main_minvdw_matrix [carbon_a; carbon_b]))).
  intros res a [<- | [<- | []]] [<- | []]; discriminate.
Defined.

(** X14: the sccmass branch of the driver never fails and never defers a
    cell: for every residue list it returns a square symmetric matrix
    whose cell [i][j] holds the side-chain centre-of-mass value of
    residues i and j, with an empty deferred list; in particular every
    cell of a residue without side-chain atoms holds NaN. *)
Theorem main_sccmass_matrix (residues : list Residue) :
  exists mat,
    main_sccmass residues = Ok (mat, []) /\
    square (length residues) mat /\
    (forall i j res_a res_b,
        nth_error residues i = Some res_a ->
        nth_error residues j = Some res_b ->
        mat_get mat i j = Ok (to_double (calc_cmass_distance res_a res_b true)) /\
        mat_get mat j i = mat_get mat i j /\
        (get_sidechain_atoms res_a = [] \/ get_sidechain_atoms res_b = [] ->
         mat_get mat i j = Ok NaN)).
Proof.
  destruct (main_sccmass_stores_all residues) as (mat & E & Hsq & Hcell).
  exists mat. split; [exact E|]. split; [exact Hsq|].
  intros i j res_a res_b Ea Eb.
  split; [apply Hcell; assumption|]. split.
  - rewrite (Hcell i j res_a res_b Ea Eb), (Hcell j i res_b res_a Eb Ea).
    rewrite calc_cmass_distance_swap. reflexivity.
  - intros He. rewrite (Hcell i j res_a res_b Ea Eb).
    rewrite calc_cmass_distance_undefined by exact He. reflexivity.
Qed.

Lemma main_sccmass_matrix_witness :
  exists mat, main_sccmass [glycine; alanine] = Ok (mat, []) /\
              mat_get mat 0 1 = Ok NaN.
Proof.
  destruct (main_sccmass_matrix [glycine; alanine]) as (mat & E & _ & H).
  exists mat. split; [exact E|].
  apply (H 0%nat 1%nat glycine alanine eq_refl eq_refl).
  left. reflexivity.
Defined.

(** ** The contact map *)

Lemma bools_get_mat_lt (mat : matrix) (thresh : float64) (i j : nat)
    (x : float64) :
  mat_get mat i j = Ok x ->
  bools_get (mat_lt mat thresh) i j = Ok (flt x thresh).
Proof.
  unfold mat_get, bools_get, mat_lt. intros H.
  apply bind_Ok in H. destruct H as (row & Erow & Ex).
  apply list_index_Ok in Erow, Ex.
  unfold list_index. rewrite nth_error_map, Erow. cbn [option_map bind].
  rewrite nth_error_map, Ex. reflexivity.
Qed.

Lemma flt_NaN_l (t : float64) : flt NaN t = false.
Proof. destruct t; reflexivity. Qed.

Lemma flt_NaN_r (x : float64) : flt x NaN = false.
Proof. destruct x; reflexivity. Qed.

(** X15: the contact map [mat < thresh] has, at every position that
    exists in the matrix, the comparison of that cell with the threshold;
    a NaN cell is never a contact, and with a NaN threshold nothing is.
    So under sccmass no cell of a residue without side-chain atoms is a
    contact, whatever the threshold. *)
Theorem contact_map_cells (mat : matrix) (thresh : float64) :
  (forall i j x, mat_get mat i j = Ok x ->
                 bools_get (mat_lt mat thresh) i j = Ok (flt x thresh)) /\
  (forall i j, mat_get mat i j = Ok NaN ->
               bools_get (mat_lt mat thresh) i j = Ok false) /\
  (forall i j x, mat_get mat i j = Ok x ->
                 bools_get (mat_lt mat NaN) i j = Ok false) /\
  (forall residues i j res_a res_b,
      main_sccmass residues = Ok (mat, []) ->
      nth_error residues i = Some res_a ->
      nth_error residues j = Some res_b ->
      get_sidechain_atoms res_a = [] \/ get_sidechain_atoms res_b = [] ->
      bools_get (mat_lt mat thresh) i j = Ok false).
Proof.
  split; [|split; [|split]].
  - intros i j x H. apply bools_get_mat_lt. exact H.
  - intros i j H. rewrite (bools_get_mat_lt mat thresh i j NaN H).
    rewrite flt_NaN_l. reflexivity.
  - intros i j x H. rewrite (bools_get_mat_lt mat NaN i j x H).
    rewrite flt_NaN_r. reflexivity.
  - intros residues i j res_a res_b E Ea Eb He.
    destruct (main_sccmass_stores_all residues) as (mat' & E' & _ & Hcell).
    rewrite E in E'. injection E' as <-.
    rewrite (bools_get_mat_lt mat thresh i j NaN).
    + rewrite flt_NaN_l. reflexivity.
    + rewrite (Hcell i j res_a res_b Ea Eb).
      rewrite calc_cmass_distance_undefined by exact He. reflexivity.
Qed.

Lemma contact_map_cells_witness :
  bools_get (mat_lt [[Finite 0; NaN]; [NaN; Finite 0]] (Finite 8)) 0 1 = Ok false.
Proof.
  apply (proj1 (proj2 (contact_map_cells [[Finite 0; NaN]; [NaN; Finite 0]]
                         (Finite 8)))).
  reflexivity.
Defined.

(** ** The CA and CB metrics on present atoms *)

Lemma calc_distance_present (res_a res_b : Residue) (metric : string)
    (a b : Atom) :
  In metric ["CA"; "CB"]%string ->
  find_atom res_a metric = Some a ->
  find_atom res_b metric = Some b ->
  calc_distance res_a res_b metric =
  Ok (PyFloat (Finite (coord_dist (atom_coord a) (atom_coord b)))).
Proof.
  intros Hm Ha Hb.
  assert (E : str_in metric ["CA"; "CB"]%string = true).
  { apply str_in_pair. cbn in Hm. destruct Hm as [<- | [<- | []]]; tauto. }
  unfold calc_distance. rewrite E.
  rewrite (get_atom_coord_present _ _ _ Ha), (get_atom_coord_present _ _ _ Hb).
  cbn [bind]. rewrite norm_vsub_coord. reflexivity.
Qed.

(** ** make_dist_matrix under the CA selector *)

Lemma calc_distance_CA_Ok_iff (res_a res_b : Residue) :
  (exists v, calc_distance res_a res_b "CA" = Ok v) <->
  has_id res_a "CA" = true /\ has_id res_b "CA" = true.
Proof.
  unfold has_id. split.
  - intros [v H]. unfold calc_distance in H.
    cbn [str_in existsb String.eqb Ascii.eqb Bool.eqb orb] in H.
    apply bind_Ok in H. destruct H as (A & EA & H).
    apply bind_Ok in H. destruct H as (B & EB & _).
    apply get_atom_coord_CA in EA, EB.
    destruct EA as (a & -> & _), EB as (b & -> & _). auto.
  - intros [Ha Hb].
    destruct (find_atom res_a "CA") as [a|] eqn:Ea; [|discriminate].
    destruct (find_atom res_b "CA") as [b|] eqn:Eb; [|discriminate].
    eexists. apply (calc_distance_present res_a res_b "CA" a b);
      [cbn; tauto | assumption | assumption].
Qed.

Lemma calc_distance_CA_error (res_a res_b : Residue) (e : pyerr) :
  calc_distance res_a res_b "CA" = Raise e -> e = NotImplementedError.
Proof.
  unfold calc_distance.
  cbn [str_in existsb String.eqb Ascii.eqb Bool.eqb orb].
  assert (Hn : "CA"%string <> "CB"%string) by discriminate.
  destruct (get_atom_coord_other_cases res_a "CA" Hn) as [(a & _ & ->) | (_ & ->)];
    cbn [bind]; [|congruence].
  destruct (get_atom_coord_other_cases res_b "CA" Hn) as [(b & _ & ->) | (_ & ->)];
    cbn [bind]; congruence.
Qed.

Local Open Scope nat_scope.

(** X17: under the CA selector the builder returns a matrix exactly when
    the list has fewer than two residues or every residue has a CA atom;
    otherwise it raises NotImplementedError. *)
Theorem make_dist_matrix_CA_returns_iff (residues : list Residue) :
  ((exists mat, make_dist_matrix residues "CA" = Ok mat) <->
   length residues < 2 \/
   (forall res, In res residues -> has_id res "CA" = true)) /\
  (forall e, make_dist_matrix residues "CA" = Raise e ->
             e = NotImplementedError).
Proof.
  split; [split|].
  - intros [mat E].
    destruct (Nat.lt_ge_cases (length residues) 2) as [Hlt | Hge]; [left; exact Hlt|].
    right. intros res Hin.
    destruct (make_dist_matrix_Ok residues "CA" mat E) as (_ & Hup & _).
    apply In_nth_error in Hin. destruct Hin as [k Ek].
    assert (Hk : k < length residues) by (apply nth_error_Some; congruence).
    destruct k as [|k].
    + destruct (Hup 0 1 ltac:(lia)) as (ra & rb & v & Ea & _ & Ev & _).
      rewrite Ek in Ea. injection Ea as <-.
      apply (calc_distance_CA_Ok_iff res rb). eauto.
    + destruct (Hup 0 (S k) ltac:(lia)) as (ra & rb & v & _ & Eb & Ev & _).
      rewrite Ek in Eb. injection Eb as <-.
      apply (calc_distance_CA_Ok_iff ra res). eauto.
  - intros [Hlt | Hall].
    + destruct residues as [|r0 [|r1 rest]]; cbn [length] in Hlt; try lia;
        eexists; reflexivity.
    + apply make_dist_matrix_total. intros i j res_a res_b _ Ea Eb.
      apply calc_distance_CA_Ok_iff.
      split; apply Hall; eapply nth_error_In; eassumption.
  - intros e H. unfold make_dist_matrix, xrange in H.
    destruct (fill_pairs_Raise residues "CA" (length residues) e
                (combinations2 (seq 0 (length residues))))
      with (mat := zeros (length residues) (length residues))
      as (_ & i & j & _ & res_a & res_b & _ & _ & _ & Ev & _);
      [| apply square_zeros | exact H |].
    + intros i j Hin. apply in_combinations2_seq in Hin. lia.
    + exact (calc_distance_CA_error res_a res_b e Ev).
Qed.

Lemma make_dist_matrix_CA_returns_iff_witness :
  exists mat, make_dist_matrix [ca_a; ca_b] "CA" = Ok mat.
Proof.
  apply (proj2 (proj1 (make_dist_matrix_CA_returns_iff [ca_a; ca_b]))).
  right. intros res [<- | [<- | []]]; reflexivity.
Defined.

Local Open Scope R_scope.
